(** * Community detection by integer programming: the formulations

    A shallow embedding of [src/max_community.py],
    [src/connected_max_community.py], [src/k_community.py] and
    [src/connected_k_community.py].

    Each Python function validates an adjacency matrix, builds a
    mathematical program (variables, linear and indicator constraints,
    objective), hands it to the external solver with [model.optimize()]
    and decodes the answer.  The embedding keeps these three phases:

    - the model is data: a record of declared variables, an objective and
      a list of named constraints over an expression syntax, built by the
      same loops as the source (a Python [for] that calls [addConstr]
      becomes a [flat_map] emitting the constraints in source order; a
      loop whose call can be refused threads the model and the exception
      through the calls);
    - the call of the solver is an explicit interaction: a function
      returns either a finished outcome or the model it submits together
      with the continuation that decodes the solver's reply;
    - the solver itself is an external collaborator: only its contract
      (what a status and an assignment mean for the model) appears here. *)

From Stdlib Require Import List String Ascii ZArith QArith Bool Lia Lqa Arith.
From Stdlib Require Import DecimalString Sorted.
Import ListNotations.

Local Open Scope string_scope.
Local Open Scope Z_scope.

(** ** Adjacency matrices (a two-dimensional [numpy.ndarray] of integers) *)

Module Matrix.

Definition ndarray := list (list Z).

(** [A.shape[0]] and [A.shape[1]]. *)
Definition shape0 (A : ndarray) : nat := List.length A.
Definition shape1 (A : ndarray) : nat := List.length (hd [] A).

(** [A[i, j]]. *)
Definition get (A : ndarray) (i j : nat) : Z := nth j (nth i A []) 0.

(** [(A == A.T).all()] on a square array. *)
Definition is_symmetric (A : ndarray) : bool :=
  let n := shape0 A in
  forallb (fun i => forallb (fun j => get A i j =? get A j i) (seq 0 n)) (seq 0 n).

Definition is_square (A : ndarray) : bool := (shape0 A =? shape1 A)%nat.

(** All entries are 0 or 1. *)
Definition is_01 (A : ndarray) : Prop :=
  forall i j, get A i j = 0 \/ get A i j = 1.

End Matrix.
Import Matrix.

(** ** Solver models *)

(** The decision variables of the four formulations. *)
Inductive var : Type :=
| x1 (i : nat)                  (* x[i]            max-community variants *)
| f2 (i j : nat)                (* f[i, j]         connected-max-community *)
| x2 (i p : nat)                (* x[i, p]         k-community variants *)
| w4 (j1 j2 p q : nat)          (* w[j1, j2, p, q] k-community variants *)
| f3 (i j p : nat).             (* f[i, j, p]      connected-k-community *)

Inductive vtype := BINARY | CONTINUOUS.

(** Expressions as gurobipy builds them from [+], [-], [*] on numbers and
    variables. *)
Inductive expr : Type :=
| Num (c : Z)
| Var (v : var)
| Add (a b : expr)
| Sub (a b : expr)
| Mul (a b : expr).

(** [quicksum(...)] of a generator. *)
Definition quicksum (es : list expr) : expr := fold_right Add (Num 0) es.

Inductive sense := LE | GE | EQ.

(** A comparison between two expressions ([lhs <= rhs], ...). *)
Record tempconstr := TempConstr { lhs : expr; rel : sense; rhs : expr }.

Notation "a '<==' b" := (TempConstr a LE b) (at level 70).
Notation "a '>==' b" := (TempConstr a GE b) (at level 70).
Notation "a '===' b" := (TempConstr a EQ b) (at level 70).

Inductive constr : Type :=
| Constr (name : string) (c : tempconstr)                   (* addConstr *)
| GenConstrIndicator (name : string) (binvar : var) (binval : Z)
                     (c : tempconstr).                      (* addGenConstrIndicator *)

Inductive direction := MAXIMIZE.

Record model := Model {
  model_name : string;
  params : list (string * Z);
  vars : list (var * vtype);
  objective : option (expr * direction);
  constrs : list constr
}.

(** ** Semantics of a model

    Values are exact rationals: the solver's numerical tolerances are not
    modelled.  A constraint added with [addConstr] must hold; an indicator
    constraint [(v, b, c)] must hold when [v] takes the value [b] (section
    6 of the specification: "active only when trigger_variable equals
    trigger_value").  The consequence [c] of an indicator constraint is a
    linear comparison: [addGenConstrIndicator] below refuses any other, so
    no other ever is part of a model. *)

Definition assignment := var -> Q.

Fixpoint eval (a : assignment) (e : expr) : Q :=
  match e with
  | Num c => inject_Z c
  | Var v => a v
  | Add e1 e2 => (eval a e1 + eval a e2)%Q
  | Sub e1 e2 => (eval a e1 - eval a e2)%Q
  | Mul e1 e2 => (eval a e1 * eval a e2)%Q
  end.

Definition holds (a : assignment) (c : tempconstr) : Prop :=
  match rel c with
  | LE => (eval a (lhs c) <= eval a (rhs c))%Q
  | GE => (eval a (rhs c) <= eval a (lhs c))%Q
  | EQ => (eval a (lhs c) == eval a (rhs c))%Q
  end.

Definition sat (a : assignment) (c : constr) : Prop :=
  match c with
  | Constr _ c => holds a c
  | GenConstrIndicator _ v b c => (a v == inject_Z b)%Q -> holds a c
  end.

(** Variable domains: binaries take 0 or 1, continuous variables have
    lower bound 0 ([lb=0]). *)
Definition in_domain (a : assignment) (d : var * vtype) : Prop :=
  match snd d with
  | BINARY => (a (fst d) == 0)%Q \/ (a (fst d) == 1)%Q
  | CONTINUOUS => (0 <= a (fst d))%Q
  end.

Definition feasible (m : model) (a : assignment) : Prop :=
  Forall (in_domain a) (vars m) /\ Forall (sat a) (constrs m).

Definition objective_value (m : model) (a : assignment) : Q :=
  match objective m with
  | Some (e, MAXIMIZE) => eval a e
  | None => 0%Q
  end.

Definition optimal (m : model) (a : assignment) : Prop :=
  feasible m a /\
  forall a', feasible m a' -> (objective_value m a' <= objective_value m a)%Q.

Definition binary (q : Q) : Prop := (q == 0)%Q \/ (q == 1)%Q.

(** An executable check of feasibility at a given assignment. *)
Definition holdsb (a : assignment) (c : tempconstr) : bool :=
  match rel c with
  | LE => Qle_bool (eval a (lhs c)) (eval a (rhs c))
  | GE => Qle_bool (eval a (rhs c)) (eval a (lhs c))
  | EQ => Qeq_bool (eval a (lhs c)) (eval a (rhs c))
  end.

Definition satb (a : assignment) (c : constr) : bool :=
  match c with
  | Constr _ c => holdsb a c
  | GenConstrIndicator _ v b c => negb (Qeq_bool (a v) (inject_Z b)) || holdsb a c
  end.

Definition in_domainb (a : assignment) (d : var * vtype) : bool :=
  match snd d with
  | BINARY => Qeq_bool (a (fst d)) 0 || Qeq_bool (a (fst d)) 1
  | CONTINUOUS => Qle_bool 0 (a (fst d))
  end.

Definition feasibleb (m : model) (a : assignment) : bool :=
  forallb (in_domainb a) (vars m) && forallb (satb a) (constrs m).

(** ** The external solver

    The solver is not part of the repository: the functions only call
    [model.optimize()], read [model.status] and read [x[...].X].  Its reply
    is therefore an explicit value, with the statuses of the solver
    interface of the specification (section 6).  [X] is the assignment the
    solver makes available; reading [.X] when there is none raises. *)

Inductive Status := OPTIMAL | FEASIBLE | INFEASIBLE | TIME_LIMIT.

Definition Status_eqb (s t : Status) : bool :=
  match s, t with
  | OPTIMAL, OPTIMAL | FEASIBLE, FEASIBLE
  | INFEASIBLE, INFEASIBLE | TIME_LIMIT, TIME_LIMIT => true
  | _, _ => false
  end.

Record reply := Reply { status : Status; X : option assignment }.

(** What a reply means for the model it answers: an assignment that is
    made available satisfies the model, [OPTIMAL] comes with an assignment
    that maximises the objective, and [INFEASIBLE] is reported only when no
    assignment satisfies the model. *)
Record reply_sound (m : model) (r : reply) : Prop := {
  sound_X : forall a, X r = Some a -> feasible m a;
  sound_optimal : status r = OPTIMAL -> exists a, X r = Some a /\ optimal m a;
  sound_infeasible : status r = INFEASIBLE -> forall a, ~ feasible m a
}.

(** The solver ran to a proof of optimality or of infeasibility (no
    resource limit stopped it; the source sets none). *)
Definition reply_conclusive (r : reply) : Prop :=
  status r = OPTIMAL \/ status r = INFEASIBLE.

(** ** Outcomes of a call *)

Inductive result : Type :=
| Message (s : string)                                (* a [str] *)
| Members (key : string) (S : list nat) (size : nat)  (* {key: S, "size": size} *)
| Communities (c : list (nat * list nat)).            (* {label: [vertices]} *)

Inductive outcome : Type :=
| Returns (r : result)
| Raises (cls : string) (msg : string).

(** A call either finishes without the solver, or submits one model and
    decodes the reply. *)
Inductive run : Type :=
| Done (o : outcome)
| Optimize (m : model) (k : reply -> outcome).

Definition exec (solve : model -> reply) (c : run) : outcome :=
  match c with
  | Done o => o
  | Optimize m k => k (solve m)
  end.

(** The outcome of a call when the solver answers [r]. *)
Definition answer (c : run) (r : reply) : outcome := exec (fun _ => r) c.

(** The model a call submits, if it reaches the solver. *)
Definition submitted (c : run) : option model :=
  match c with
  | Done _ => None
  | Optimize m _ => Some m
  end.

(** ** Helpers shared by the four functions *)

(** [range(n)]. *)
Definition range (n : nat) : list nat := seq 0 n.

(** [str(n)] inside an f-string. *)
Definition str (n : nat) : string := NilZero.string_of_uint (Nat.to_uint n).
Definition strZ (k : Z) : string := NilZero.string_of_int (Z.to_int k).

(** [v.X > 0.5]. *)
Definition gt_half (q : Q) : bool := negb (Qle_bool q (1 # 2)).

(** [[i for i in V if x[i].X > 0.5]]. *)
Definition selected (a : assignment) (x : nat -> var) (V : list nat) : list nat :=
  filter (fun i => gt_half (a (x i))) V.

Definition assertion_square := "Adjacency matrix must be square.".
Definition assertion_symmetric := "Adjacency matrix must be symmetric.".
Definition no_X := "Unable to retrieve attribute 'X'".


(** ** The calls that add constraints

    gurobipy keeps the degree of an expression in its class: a number, a
    linear expression ([Var], [LinExpr]) or a quadratic one ([QuadExpr],
    the product of two linear expressions).  [addGenConstrIndicator] takes
    a linear comparison as the consequence (section 6 of the
    specification: "consequence: linear constraint"); handed a comparison
    of quadratic expressions it raises a [TypeError] and adds nothing. *)

Fixpoint degree (e : expr) : nat :=
  match e with
  | Num _ => 0
  | Var _ => 1
  | Add a b => Nat.max (degree a) (degree b)
  | Sub a b => Nat.max (degree a) (degree b)
  | Mul a b => degree a + degree b
  end.

Definition is_linear (c : tempconstr) : bool :=
  (degree (lhs c) <=? 1)%nat && (degree (rhs c) <=? 1)%nat.

(** A raised exception: its class and its message. *)
Inductive exception := Exception (cls : string) (msg : string).

(** The message of the library's [TypeError]; the text is the library's,
    not the source's, and nothing below depends on it. *)
Definition not_linear := "indicator constraint with a quadratic expression".

Definition addGenConstrIndicator (m : model) (name : string) (binvar : var) (binval : Z)
                                 (c : tempconstr) : exception + model :=
  if is_linear c then
    inr {| model_name := model_name m;
           params := params m;
           vars := vars m;
           objective := objective m;
           constrs := constrs m ++ [GenConstrIndicator name binvar binval c] |}
  else inl (Exception "TypeError" not_linear).

(** ** [max_community.py] *)

Module MaxCommunity.

Definition size_constraints (n : nat) : list constr :=
  let V := range n in
  [ Constr "min_size_S" (quicksum (map (fun i => Var (x1 i)) V) >== Num 2);
    Constr "max_size_S" (quicksum (map (fun i => Var (x1 i)) V) <== Num (Z.of_nat n - 1)) ].

(** The model when the loop of the community constraints starts (lines
    29-41): variables, objective and the two constraints on the size. *)
Definition initial_model (A : ndarray) : model :=
  let n := shape0 A in
  let V := range n in
  {| model_name := "MaxCommunity";
     params := [("Threads", 4)];
     vars := map (fun i => (x1 i, BINARY)) V;
     objective := Some (quicksum (map (fun i => Var (x1 i)) V), MAXIMIZE);
     constrs := size_constraints n |}.

(** The comparison [d_S * complement_size >= d_not_S * (S_size - 1)] of
    vertex [u] (lines 45-48 and 53). *)
Definition pds_comparison (A : ndarray) (n : nat) (u : nat) : tempconstr :=
  let V := range n in
  let others := filter (fun v => negb (u =? v)%nat) V in
  let d_S := quicksum (map (fun v => Mul (Num (get A u v)) (Var (x1 v))) others) in
  let d_not_S :=
    quicksum (map (fun v => Mul (Num (get A u v)) (Sub (Num 1) (Var (x1 v)))) others) in
  let S_size := quicksum (map (fun v => Var (x1 v)) V) in
  let complement_size := Sub (Num (Z.of_nat n)) S_size in
  Mul d_S complement_size >== Mul d_not_S (Sub S_size (Num 1)).

(** One round of the [for u in V] loop (lines 44-55): the call of
    [addGenConstrIndicator], unless an earlier round raised. *)
Definition pds_round (A : ndarray) (n : nat) (acc : exception + model) (u : nat)
  : exception + model :=
  match acc with
  | inl e => inl e
  | inr m => addGenConstrIndicator m ("pds_constraint_" ++ str u) (x1 u) 1
                                   (pds_comparison A n u)
  end.

(** The community constraints (the [for u in V] loop, lines 44-55). *)
Definition add_pds_constraints (A : ndarray) (n : nat) (m : model) : exception + model :=
  fold_left (pds_round A n) (range n) (inr m).

(** Lines 29-55. *)
Definition build_model (A : ndarray) : exception + model :=
  add_pds_constraints A (shape0 A) (initial_model A).

Definition no_pds := "Unexpected: No PDS found. Please check the model or graph input.".

(** Lines 61-66. *)
Definition decode (key : string) (n : nat) (r : reply) : outcome :=
  if Status_eqb (status r) OPTIMAL then
    match X r with
    | Some a => let S := selected a x1 (range n) in
                Returns (Members key S (List.length S))
    | None => Raises "AttributeError" no_X
    end
  else Returns (Message no_pds).

Definition find_max_community (A : ndarray) : run :=
  if negb (is_square A) then Done (Raises "AssertionError" assertion_square)
  else if negb (is_symmetric A) then Done (Raises "AssertionError" assertion_symmetric)
  else
    let n := shape0 A in
    if (n <? 3)%nat then Done (Returns (Message "Graph has less than 3 vertices."))
    else
      match build_model A with
      | inl (Exception cls msg) => Done (Raises cls msg)
      | inr m => Optimize m (decode "PDS" n)
      end.

End MaxCommunity.

(** ** [connected_max_community.py] *)

Module ConnectedMaxCommunity.

Definition root : nat := 0.

(** Flow conservation at every vertex but the root (lines 50-56). *)
Definition flow_conservation (A : ndarray) (n : nat) : list constr :=
  let V := range n in
  flat_map (fun i =>
    if negb (i =? root)%nat then
      [ Constr ("flow_conservation_" ++ str i)
          (quicksum (map (fun j => Var (f2 j i)) (filter (fun j => get A j i =? 1) V))
           === quicksum (map (fun j => Var (f2 i j)) (filter (fun j => get A i j =? 1) V))) ]
    else []) V.

(** Flow only on edges with both ends in S (lines 57-61). *)
Definition flow_capacity (A : ndarray) (n : nat) : list constr :=
  let V := range n in
  flat_map (fun i => flat_map (fun j =>
    if get A i j =? 1 then
      [ Constr ("flow_capacity_start_" ++ str i ++ "_" ++ str j) (Var (f2 i j) <== Var (x1 i));
        Constr ("flow_capacity_end_" ++ str i ++ "_" ++ str j) (Var (f2 i j) <== Var (x1 j)) ]
    else []) V) V.

(** The connectivity constraints (lines 48-61). *)
Definition connectivity_constraints (A : ndarray) (n : nat) : list constr :=
  [Constr "root_in_community" (Var (x1 root) === Num 1)]
  ++ flow_conservation A n
  ++ flow_capacity A n.

(** The model when the loop of the community constraints starts (lines
    33-61): variables, objective, size and connectivity constraints. *)
Definition initial_model (A : ndarray) : model :=
  let n := shape0 A in
  let V := range n in
  {| model_name := "Connected_Max_Community";
     params := [("OutputFlag", 1)];
     vars := map (fun i => (x1 i, BINARY)) V
             ++ flat_map (fun i => map (fun j => (f2 i j, CONTINUOUS)) V) V;
     objective := Some (quicksum (map (fun i => Var (x1 i)) V), MAXIMIZE);
     constrs := MaxCommunity.size_constraints n ++ connectivity_constraints A n |}.

(** Lines 33-75; the community constraints are the loop of
    [max_community.py]. *)
Definition build_model (A : ndarray) : exception + model :=
  MaxCommunity.add_pds_constraints A (shape0 A) (initial_model A).

Definition find_connected_max_community (A : ndarray) : run :=
  if negb (is_square A) then Done (Raises "AssertionError" assertion_square)
  else if negb (is_symmetric A) then Done (Raises "AssertionError" assertion_symmetric)
  else
    let n := shape0 A in
    if (n <? 3)%nat then Done (Returns (Message "Graph has less than 3 vertices."))
    else
      match build_model A with
      | inl (Exception cls msg) => Done (Raises cls msg)
      | inr m => Optimize m (MaxCommunity.decode "community" n)
      end.

End ConnectedMaxCommunity.

(** ** [k_community.py] *)

Module KCommunity.

(** 1. Proportional density, one indicator constraint per vertex and
    ordered pair of distinct communities (lines 43-56). *)
Definition density_constraint (A : ndarray) (n : nat) (i p q : nat) : constr :=
  let V := range n in
  let N_C :=
    quicksum (map (fun j1 =>
      Mul (Num (get A i j1)) (quicksum (map (fun j2 => Var (w4 j1 j2 p q)) V))) V) in
  let N_Cprime :=
    quicksum (map (fun l1 =>
      Mul (Num (get A i l1)) (quicksum (map (fun l2 => Var (w4 l1 l2 q p)) V))) V) in
  let correction :=
    quicksum (map (fun l => Mul (Var (x2 l q)) (Num (get A i l))) V) in
  GenConstrIndicator ("CpwrtCq_" ++ str i ++ "_" ++ str p ++ "_" ++ str q) (x2 i p) 1
    (N_C >== Sub N_Cprime correction).

Definition density (A : ndarray) (n k : nat) : list constr :=
  flat_map (fun i => flat_map (fun p => flat_map (fun q =>
    if negb (p =? q)%nat then [density_constraint A n i p q] else [])
    (range k)) (range k)) (range n).

(** 2. Link w to x: the three constraints of one round of the loop
    (lines 63-65). *)
Definition link (j1 j2 p q : nat) : list constr :=
  let ix := str j1 ++ "_" ++ str j2 ++ "_" ++ str p ++ "_" ++ str q in
  [ Constr ("WlinkedtoX1_" ++ ix) (Var (w4 j1 j2 p q) <== Var (x2 j1 p));
    Constr ("WlinkedtoX2_" ++ ix) (Var (w4 j1 j2 p q) <== Var (x2 j2 q));
    Constr ("WlinkedtoX3_" ++ ix)
      (Var (w4 j1 j2 p q) >== Sub (Add (Var (x2 j1 p)) (Var (x2 j2 q))) (Num 1)) ].

Definition linking (n k : nat) : list constr :=
  flat_map (fun j1 => flat_map (fun j2 => flat_map (fun p => flat_map (fun q =>
    link j1 j2 p q) (range k)) (range k)) (range n)) (range n).

(** 3. At least two vertices in each community (lines 68-69). *)
Definition at_least_two (n k : nat) : list constr :=
  map (fun p =>
    Constr ("atLeastTwoinCi_" ++ str p)
      (quicksum (map (fun i => Var (x2 i p)) (range n)) >== Num 2)) (range k).

(** 4. Every vertex belongs to exactly one community (lines 72-73). *)
Definition exactly_one (n k : nat) : list constr :=
  map (fun i =>
    Constr ("everyvertexbelongsto1community_" ++ str i)
      (quicksum (map (fun p => Var (x2 i p)) (range k)) === Num 1)) (range n).

Definition x_vars (n k : nat) : list (var * vtype) :=
  flat_map (fun i => map (fun p => (x2 i p, BINARY)) (range k)) (range n).

Definition w_vars (n k : nat) : list (var * vtype) :=
  flat_map (fun j1 => flat_map (fun j2 => flat_map (fun p =>
    map (fun q => (w4 j1 j2 p q, BINARY)) (range k)) (range k)) (range n)) (range n).

Definition build_model (A : ndarray) (k : nat) : model :=
  let n := shape0 A in
  {| model_name := "k_community";
     params := [];
     vars := x_vars n k ++ w_vars n k;
     objective := None;
     constrs := density A n k ++ linking n k ++ at_least_two n k ++ exactly_one n k |}.

(** [{p + 1: [i for i in V if x[i, p].X > 0.5] for p in range(k)}]. *)
Definition communities (a : assignment) (n k : nat) : list (nat * list nat) :=
  map (fun p => ((p + 1)%nat, selected a (fun i => x2 i p) (range n))) (range k).

(** Lines 78-83; [what] is the text between "No " and "-community". *)
Definition decode (what : string) (n : nat) (k : Z) (r : reply) : outcome :=
  if Status_eqb (status r) INFEASIBLE then
    Returns (Message ("No " ++ what ++ strZ k ++ "-community exists."))
  else
    match X r with
    | Some a => Returns (Communities (communities a n (Z.to_nat k)))
    | None => Raises "AttributeError" no_X
    end.

Definition less_than_4 := "The graph has less than 4 vertices.".
Definition less_than_2k := "The number of vertices must be at least 2*k.".
Definition k_less_than_2 := "k must be at least 2.".

Definition find_k_community (A : ndarray) (k : Z) : run :=
  if negb (is_square A) then Done (Raises "AssertionError" assertion_square)
  else if negb (is_symmetric A) then Done (Raises "AssertionError" assertion_symmetric)
  else
    let n := shape0 A in
    if (n <? 4)%nat then Done (Returns (Message less_than_4))
    else if Z.of_nat n <? 2 * k then Done (Returns (Message less_than_2k))
    else if k <? 2 then Done (Returns (Message k_less_than_2))
    else Optimize (build_model A (Z.to_nat k)) (decode "" n k).

End KCommunity.

(** ** [connected_k_community.py] *)

Module ConnectedKCommunity.

Definition root : nat := 0.

(** 5. Connectivity constraints of community [p]: one round of the
    [for p in range(k)] loop (lines 76-94). *)
Definition connectivity_of (A : ndarray) (n : nat) (p : nat) : list constr :=
  let V := range n in
  [Constr ("root_in_community_" ++ str p) (Var (x2 root p) === Num 1)]
  ++ flat_map (fun i =>
       if negb (i =? root)%nat then
         [ Constr ("flow_conservation_" ++ str i ++ "_" ++ str p)
             (quicksum (map (fun j => Var (f3 j i p)) (filter (fun j => get A j i =? 1) V))
              === quicksum (map (fun j => Var (f3 i j p))
                                (filter (fun j => get A i j =? 1) V))) ]
       else []) V
  ++ flat_map (fun i => flat_map (fun j =>
       if get A i j =? 1 then
         [ Constr ("flow_capacity_start_" ++ str i ++ "_" ++ str j ++ "_" ++ str p)
             (Var (f3 i j p) <== Var (x2 i p));
           Constr ("flow_capacity_end_" ++ str i ++ "_" ++ str j ++ "_" ++ str p)
             (Var (f3 i j p) <== Var (x2 j p)) ]
       else []) V) V.

Definition connectivity (A : ndarray) (n k : nat) : list constr :=
  flat_map (connectivity_of A n) (range k).

Definition f_vars (n k : nat) : list (var * vtype) :=
  flat_map (fun i => flat_map (fun j =>
    map (fun p => (f3 i j p, CONTINUOUS)) (range k)) (range n)) (range n).

Definition build_model (A : ndarray) (k : nat) : model :=
  let n := shape0 A in
  {| model_name := "connected_k_community";
     params := [];
     vars := KCommunity.x_vars n k ++ KCommunity.w_vars n k ++ f_vars n k;
     objective := None;
     constrs := KCommunity.density A n k ++ KCommunity.linking n k
                ++ KCommunity.at_least_two n k ++ KCommunity.exactly_one n k
                ++ connectivity A n k |}.

Definition find_connected_k_community (A : ndarray) (k : Z) : run :=
  if negb (is_square A) then Done (Raises "AssertionError" assertion_square)
  else if negb (is_symmetric A) then Done (Raises "AssertionError" assertion_symmetric)
  else
    let n := shape0 A in
    if (n <? 4)%nat then Done (Returns (Message KCommunity.less_than_4))
    else if Z.of_nat n <? 2 * k then Done (Returns (Message KCommunity.less_than_2k))
    else if k <? 2 then Done (Returns (Message KCommunity.k_less_than_2))
    else Optimize (build_model A (Z.to_nat k))
                  (KCommunity.decode "connected " n k).

End ConnectedKCommunity.

(** ** Graph notions used to state the properties *)

(** [v] can be reached from [u] by edges of [A] between members of [S]. *)
Inductive reachable (A : ndarray) (S : list nat) (u : nat) : nat -> Prop :=
| reach_refl : In u S -> reachable A S u u
| reach_step : forall v w, reachable A S u v -> In w S -> get A v w = 1 ->
               reachable A S u w.

(** ** Example graphs *)

Definition triangle : ndarray := [[0;1;1];[1;0;1];[1;1;0]].
Definition two_edges : ndarray := [[0;1;0;0];[1;0;0;0];[0;0;0;1];[0;0;1;0]].
Definition path2 : ndarray := [[0;1];[1;0]].
Definition non_square : ndarray := [[0;1;0];[1;0;1]].
Definition non_symmetric : ndarray := [[0;1;0];[0;0;1];[1;0;0]].

(** ** What the constraints 2-4 of the k-community models say of an
    assignment (the part shared by [k_community.py] and
    [connected_k_community.py]) *)

Record partition_core (a : assignment) (n k : nat) : Prop := {
  core_x_binary : forall i p, (i < n)%nat -> (p < k)%nat -> binary (a (x2 i p));
  core_w_binary : forall j1 j2 p q, (j1 < n)%nat -> (j2 < n)%nat -> (p < k)%nat ->
                  (q < k)%nat -> binary (a (w4 j1 j2 p q));
  core_link : forall j1 j2 p q, (j1 < n)%nat -> (j2 < n)%nat -> (p < k)%nat ->
              (q < k)%nat -> Forall (sat a) (KCommunity.link j1 j2 p q);
  core_two : forall p, (p < k)%nat ->
             (2 <= eval a (quicksum (map (fun i => Var (x2 i p)) (range n))))%Q;
  core_one : forall i, (i < n)%nat ->
             (eval a (quicksum (map (fun p => Var (x2 i p)) (range k))) == 1)%Q
}.

(** The partition {0,1}, {2,3} as an assignment of the k-community model:
    x[i,p] = 1 when vertex i lies in part p, w the products, zero flow. *)
Definition part_of (i : nat) : nat := if (i <? 2)%nat then 0%nat else 1%nat.

Definition two_parts : assignment := fun v =>
  match v with
  | x2 i p => if (part_of i =? p)%nat then 1%Q else 0%Q
  | w4 j1 j2 p q => if ((part_of j1 =? p) && (part_of j2 =? q))%nat then 1%Q else 0%Q
  | _ => 0%Q
  end.

Definition all_ones : assignment := fun _ => 1%Q.

(** The reply of a solver that proved infeasibility. *)
Definition proved_infeasible : reply := Reply INFEASIBLE None.

(** ** Assignments and replies used as instances *)

(** The set of the first [m] vertices as an assignment of the
    max-community models (zero flow). *)
Definition first_vertices (m : nat) : assignment := fun v =>
  match v with
  | x1 i => if (i <? m)%nat then 1%Q else 0%Q
  | _ => 0%Q
  end.

(** A graph whose root is isolated: vertices 1 and 2 are joined,
    vertices 0 and 3 have no edge. *)
Definition isolated_root : ndarray := [[0;0;0;0];[0;0;1;0];[0;1;0;0];[0;0;0;0]].


(** An assignment with its flow variables set to zero. *)
Definition zero_flow (a : assignment) : assignment := fun v =>
  match v with
  | f2 _ _ => 0%Q
  | f3 _ _ _ => 0%Q
  | _ => a v
  end.

(** The number of members [v] of [S] with [A[i, v] = 1] (the sums of the
    k-community density constraint run over all of V, [i] included). *)
Definition neighbours_in (A : ndarray) (S : list nat) (i : nat) : nat :=
  List.length (filter (fun v => get A i v =? 1) S).

(** A constraint compares expressions of degree at most 1. *)
Definition linear_constr (c : constr) : bool :=
  match c with
  | Constr _ c => is_linear c
  | GenConstrIndicator _ _ _ c => is_linear c
  end.

(** ** Partitions, as the k-community model states them *)

(** The assignment of the k-community models that puts each vertex [i] in
    community [f i]: x[i, p] = 1 when p = f i, w the products, zero flow. *)
Definition labelled (f : nat -> nat) : assignment := fun v =>
  match v with
  | x2 i p => if (f i =? p)%nat then 1%Q else 0%Q
  | w4 j1 j2 p q => if ((f j1 =? p) && (f j2 =? q))%nat then 1%Q else 0%Q
  | _ => 0%Q
  end.

(** The vertices below [n] labelled [p]. *)
Definition part (f : nat -> nat) (n p : nat) : list nat :=
  filter (fun i => (f i =? p)%nat) (range n).

(** The labelling [f] is a k-community structure of the [n]-vertex graph
    [A]: labels below k, parts of at least two vertices, and the inequality
    of the density constraints in terms of the graph. *)
Definition is_k_community (A : ndarray) (n k : nat) (f : nat -> nat) : Prop :=
  (forall i, (i < n)%nat -> (f i < k)%nat) /\
  (forall p, (p < k)%nat -> (2 <= List.length (part f n p))%nat) /\
  (forall p q i, (p < k)%nat -> (q < k)%nat -> p <> q -> In i (part f n p) ->
     Z.of_nat (neighbours_in A (part f n q) i) * (Z.of_nat (List.length (part f n p)) - 1)
     <= Z.of_nat (neighbours_in A (part f n p) i) * Z.of_nat (List.length (part f n q))).

(** The community an assignment gives vertex [i]. *)
Definition label_of (a : assignment) (k : nat) (i : nat) : nat :=
  hd 0%nat (selected a (x2 i) (range k)).

(** * Properties *)

(** ** Facts about the semantics *)

Section Semantics.

Variable a : assignment.

Lemma holdsb_holds c : holdsb a c = true -> holds a c.
Proof.
  unfold holdsb, holds. destruct (rel c); intro H.
  - now apply Qle_bool_iff.
  - now apply Qle_bool_iff.
  - now apply Qeq_bool_iff.
Qed.

Lemma satb_sat c : satb a c = true -> sat a c.
Proof.
  destruct c as [nm c | nm v b c]; simpl.
  - apply holdsb_holds.
  - intros H Hv. apply holdsb_holds.
    apply orb_true_iff in H. destruct H as [H | H]; [ | exact H].
    apply negb_true_iff in H. apply Qeq_bool_iff in Hv. congruence.
Qed.

Lemma in_domainb_in_domain d : in_domainb a d = true -> in_domain a d.
Proof.
  unfold in_domainb, in_domain. destruct (snd d); intro H.
  - apply orb_true_iff in H. destruct H as [H | H]; [left | right];
      now apply Qeq_bool_iff.
  - now apply Qle_bool_iff.
Qed.

Lemma feasibleb_feasible m : feasibleb m a = true -> feasible m a.
Proof.
  unfold feasibleb, feasible. intro H. apply andb_true_iff in H.
  destruct H as [Hd Hc]. rewrite forallb_forall in Hd, Hc.
  split; apply Forall_forall; intros y Hy.
  - apply in_domainb_in_domain; auto.
  - apply satb_sat; auto.
Qed.

Lemma eval_quicksum_cons e es :
  eval a (quicksum (e :: es)) = (eval a e + eval a (quicksum es))%Q.
Proof. reflexivity. Qed.

Local Ltac count_step :=
  rewrite ?Zpos_P_of_succ_nat; unfold Z.succ; rewrite ?inject_Z_plus;
  change (inject_Z 0) with 0%Q; change (inject_Z 1) with 1%Q; lra.

Lemma gt_half_one q : (q == 1)%Q -> gt_half q = true.
Proof.
  intro H. unfold gt_half. apply negb_true_iff.
  destruct (Qle_bool q (1 # 2)) eqn:E; [ | reflexivity].
  apply Qle_bool_iff in E. exfalso. lra.
Qed.

Lemma gt_half_zero q : (q == 0)%Q -> gt_half q = false.
Proof.
  intro H. unfold gt_half. apply negb_false_iff.
  apply Qle_bool_iff. lra.
Qed.

Lemma gt_half_binary q : binary q -> (gt_half q = true <-> (q == 1)%Q).
Proof.
  intros [H | H]; split; intro G.
  - rewrite (gt_half_zero _ H) in G. discriminate.
  - exfalso. lra.
  - exact H.
  - now apply gt_half_one.
Qed.

Lemma binary_cases q :
  binary q ->
  (gt_half q = true /\ (q == 1)%Q) \/ (gt_half q = false /\ (q == 0)%Q).
Proof.
  intros [H | H]; [right | left]; split; auto using gt_half_zero, gt_half_one.
Qed.

(** The sum of binaries counts the selected indices. *)
Lemma sum_binary_count (x : nat -> var) (l : list nat) :
  (forall i, In i l -> binary (a (x i))) ->
  (eval a (quicksum (map (fun i => Var (x i)) l))
   == inject_Z (Z.of_nat (List.length (selected a x l))))%Q.
Proof.
  induction l as [ | i l IH]; intro Hb.
  - reflexivity.
  - simpl map. rewrite eval_quicksum_cons. rewrite IH by (intros; apply Hb; now right).
    unfold selected. simpl filter.
    assert (Hi : binary (a (x i))) by (apply Hb; now left).
    destruct (binary_cases _ Hi) as [[E Q1] | [E Q0]]; rewrite E; simpl eval.
    + simpl List.length. rewrite Nat2Z.inj_succ. unfold Z.succ.
      rewrite inject_Z_plus. rewrite Q1. unfold selected.
      change (inject_Z 1) with 1%Q. lra.
    + rewrite Q0. unfold selected. lra.
Qed.

(** A 0/1-weighted sum of binaries counts the selected neighbours. *)
End Semantics.

Import MaxCommunity ConnectedMaxCommunity KCommunity ConnectedKCommunity.

(** ** The community constraints of the max-community functions are refused *)

Lemma degree_quicksum_le (f : nat -> expr) l :
  (forall x, In x l -> (degree (f x) <= 1)%nat) ->
  (degree (quicksum (map f l)) <= 1)%nat.
Proof.
  induction l as [ | x l IH]; intro H; simpl; [lia | ].
  specialize (H x (or_introl eq_refl)) as Hx.
  assert (degree (quicksum (map f l)) <= 1)%nat by (apply IH; intros; apply H; now right).
  unfold quicksum in *. lia.
Qed.

Lemma degree_quicksum_one (f : nat -> expr) x l :
  (forall y, In y (x :: l) -> degree (f y) = 1%nat) ->
  degree (quicksum (map f (x :: l))) = 1%nat.
Proof.
  intro H. simpl.
  assert (degree (quicksum (map f l)) <= 1)%nat.
  { apply degree_quicksum_le. intros y Hy. rewrite (H y); [lia | now right]. }
  rewrite (H x) by now left. unfold quicksum in *. lia.
Qed.

(** With two vertices or more, the comparison of vertex 0 is a product of
    two linear expressions on its left-hand side. *)
Lemma pds_comparison_not_linear A n :
  (2 <= n)%nat -> is_linear (pds_comparison A n 0) = false.
Proof.
  intro Hn. destruct n as [ | [ | n]]; try lia.
  unfold is_linear, pds_comparison. cbn [lhs rhs].
  assert (Hl : degree (Mul
      (quicksum (map (fun v => Mul (Num (get A 0 v)) (Var (x1 v)))
                     (filter (fun v => negb (0 =? v)%nat) (range (S (S n))))))
      (Sub (Num (Z.of_nat (S (S n))))
           (quicksum (map (fun v => Var (x1 v)) (range (S (S n))))))) = 2%nat).
  { cbn [degree]. unfold range. cbn [seq filter Nat.eqb negb].
    rewrite (degree_quicksum_one (fun v => Mul (Num (get A 0 v)) (Var (x1 v)))) by reflexivity.
    rewrite (degree_quicksum_one (fun v => Var (x1 v))) by reflexivity.
    reflexivity. }
  rewrite Hl. reflexivity.
Qed.

Lemma pds_rounds_after_raise A n e l :
  fold_left (pds_round A n) l (inl e) = inl e.
Proof. induction l as [ | u l IH]; [reflexivity | exact IH]. Qed.

(** The first round of the loop raises, whatever the model so far. *)
Lemma add_pds_constraints_raises A n m :
  (2 <= n)%nat ->
  add_pds_constraints A n m = inl (Exception "TypeError" not_linear).
Proof.
  intro Hn. unfold add_pds_constraints, range.
  destruct n as [ | n]; [lia | ]. cbn [seq fold_left].
  unfold pds_round at 2, addGenConstrIndicator.
  rewrite pds_comparison_not_linear by lia. apply pds_rounds_after_raise.
Qed.

(** ** Validation (lines 19-29 of the k-community files, 19-25 of the
    max-community files) *)


Section Validation.

Variables (A : ndarray) (k : Z).

Lemma validation_rejects_non_square :
  is_square A = false ->
  find_max_community A = Done (Raises "AssertionError" assertion_square) /\
  find_connected_max_community A = Done (Raises "AssertionError" assertion_square) /\
  find_k_community A k = Done (Raises "AssertionError" assertion_square) /\
  find_connected_k_community A k = Done (Raises "AssertionError" assertion_square).
Proof.
  intro H.
  unfold find_max_community, find_connected_max_community, find_k_community,
    find_connected_k_community.
  rewrite H. simpl. auto.
Qed.

Lemma validation_rejects_non_symmetric :
  is_square A = true -> is_symmetric A = false ->
  find_max_community A = Done (Raises "AssertionError" assertion_symmetric) /\
  find_connected_max_community A = Done (Raises "AssertionError" assertion_symmetric) /\
  find_k_community A k = Done (Raises "AssertionError" assertion_symmetric) /\
  find_connected_k_community A k = Done (Raises "AssertionError" assertion_symmetric).
Proof.
  intros H1 H2.
  unfold find_max_community, find_connected_max_community, find_k_community,
    find_connected_k_community.
  rewrite H1, H2. simpl. auto.
Qed.

(** Past the two assertions the size check decides; with three vertices or
    more the first community constraint is refused. *)
Lemma max_after_assertions :
  is_square A = true -> is_symmetric A = true ->
  find_max_community A =
    if (shape0 A <? 3)%nat then Done (Returns (Message "Graph has less than 3 vertices."))
    else Done (Raises "TypeError" not_linear).
Proof.
  intros H1 H2. unfold find_max_community. rewrite H1, H2. simpl negb. cbv iota zeta.
  destruct (Nat.ltb_spec (shape0 A) 3); [reflexivity | ].
  unfold MaxCommunity.build_model. now rewrite add_pds_constraints_raises by lia.
Qed.

Lemma connected_max_after_assertions :
  is_square A = true -> is_symmetric A = true ->
  find_connected_max_community A =
    if (shape0 A <? 3)%nat then Done (Returns (Message "Graph has less than 3 vertices."))
    else Done (Raises "TypeError" not_linear).
Proof.
  intros H1 H2. unfold find_connected_max_community. rewrite H1, H2. simpl negb. cbv iota zeta.
  destruct (Nat.ltb_spec (shape0 A) 3); [reflexivity | ].
  unfold ConnectedMaxCommunity.build_model. now rewrite add_pds_constraints_raises by lia.
Qed.
Lemma k_after_validation :
  is_square A = true -> is_symmetric A = true ->
  (4 <= shape0 A)%nat -> 2 * k <= Z.of_nat (shape0 A) -> 2 <= k ->
  find_k_community A k =
    Optimize (KCommunity.build_model A (Z.to_nat k)) (KCommunity.decode "" (shape0 A) k).
Proof.
  intros H1 H2 H3 H4 H5. unfold find_k_community. rewrite H1, H2. simpl negb. cbv iota.
  destruct (Nat.ltb_spec (shape0 A) 4); [lia | ].
  destruct (Z.ltb_spec (Z.of_nat (shape0 A)) (2 * k)); [lia | ].
  destruct (Z.ltb_spec k 2); [lia | reflexivity].
Qed.

Lemma connected_k_after_validation :
  is_square A = true -> is_symmetric A = true ->
  (4 <= shape0 A)%nat -> 2 * k <= Z.of_nat (shape0 A) -> 2 <= k ->
  find_connected_k_community A k =
    Optimize (ConnectedKCommunity.build_model A (Z.to_nat k))
             (KCommunity.decode "connected " (shape0 A) k).
Proof.
  intros H1 H2 H3 H4 H5. unfold find_connected_k_community. rewrite H1, H2. simpl negb. cbv iota.
  destruct (Nat.ltb_spec (shape0 A) 4); [lia | ].
  destruct (Z.ltb_spec (Z.of_nat (shape0 A)) (2 * k)); [lia | ].
  destruct (Z.ltb_spec k 2); [lia | reflexivity].
Qed.

End Validation.

(** C7. With a square symmetric matrix, fewer than 3 vertices make both
    max-community functions return the message "Graph has less than 3
    vertices.", and n<4, n<2k or k<2 make both k-community functions return
    one of their three validation messages; in each case the call is [Done]:
    no model is built and the solver is not called.  The 2-vertex path is
    the instance of the scenario. *)
Theorem short_circuit_on_small_inputs :
  forall (A : ndarray) (k : Z),
    is_square A = true -> is_symmetric A = true ->
    ((shape0 A < 3)%nat ->
       find_max_community A = Done (Returns (Message "Graph has less than 3 vertices.")) /\
       find_connected_max_community A
         = Done (Returns (Message "Graph has less than 3 vertices."))) /\
    ((shape0 A < 4)%nat \/ Z.of_nat (shape0 A) < 2 * k \/ k < 2 ->
       exists msg,
         In msg [less_than_4; less_than_2k; k_less_than_2] /\
         find_k_community A k = Done (Returns (Message msg)) /\
         find_connected_k_community A k = Done (Returns (Message msg)) /\
         submitted (find_k_community A k) = None /\
         submitted (find_connected_k_community A k) = None) /\
    find_max_community path2 = Done (Returns (Message "Graph has less than 3 vertices.")).
Proof.
  intros A k Hsq Hsym. split; [ | split].
  - intro Hn. rewrite max_after_assertions, connected_max_after_assertions by assumption.
    destruct (Nat.ltb_spec (shape0 A) 3); [auto | lia].
  - intro H. unfold find_k_community, find_connected_k_community.
    rewrite Hsq, Hsym. simpl negb. cbv iota.
    destruct (Nat.ltb_spec (shape0 A) 4).
    { exists less_than_4. simpl. auto 10. }
    destruct (Z.ltb_spec (Z.of_nat (shape0 A)) (2 * k)).
    { exists less_than_2k. simpl. auto 10. }
    destruct (Z.ltb_spec k 2).
    { exists k_less_than_2. simpl. auto 10. }
    lia.
  - reflexivity.
Qed.

Lemma short_circuit_on_small_inputs_witness :
  (find_max_community path2 = Done (Returns (Message "Graph has less than 3 vertices.")) /\
   find_connected_max_community path2
     = Done (Returns (Message "Graph has less than 3 vertices."))) /\
  (exists msg,
     In msg [less_than_4; less_than_2k; k_less_than_2] /\
     find_k_community two_edges 3 = Done (Returns (Message msg)) /\
     find_connected_k_community two_edges 3 = Done (Returns (Message msg)) /\
     submitted (find_k_community two_edges 3) = None /\
     submitted (find_connected_k_community two_edges 3) = None).
Proof.
  split.
  - apply (short_circuit_on_small_inputs path2 2); [reflexivity | reflexivity | ].
    simpl. lia.
  - apply (short_circuit_on_small_inputs two_edges 3); [reflexivity | reflexivity | ].
    right. left. simpl. lia.
Defined.

(** C8 (the claim as written fails).  On the non-square matrix of the
    tests the call raises an [AssertionError]; no call raises an exception
    of a class named [ValidationError]. *)
Lemma non_square_is_not_a_ValidationError :
  find_max_community non_square = Done (Raises "AssertionError" assertion_square) /\
  ~ (exists msg, find_max_community non_square = Done (Raises "ValidationError" msg)).
Proof.
  split; [reflexivity | ].
  intros [msg H]. discriminate H.
Qed.

(** C8 (amended).  For a matrix that is not square, or is square and not
    equal to its transpose, each of the four functions raises an
    [AssertionError] carrying the message of the failed assertion, and the
    call is [Done]: it happens before any model is built or solved. *)
Theorem invalid_matrix_raises_AssertionError :
  forall (A : ndarray) (k : Z),
    is_square A = false \/ is_symmetric A = false ->
    exists msg,
      (msg = assertion_square \/ msg = assertion_symmetric) /\
      find_max_community A = Done (Raises "AssertionError" msg) /\
      find_connected_max_community A = Done (Raises "AssertionError" msg) /\
      find_k_community A k = Done (Raises "AssertionError" msg) /\
      find_connected_k_community A k = Done (Raises "AssertionError" msg).
Proof.
  intros A k H.
  destruct (is_square A) eqn:Hsq.
  - destruct H as [H | H]; [discriminate | ].
    exists assertion_symmetric. split; [now right | ].
    now apply validation_rejects_non_symmetric.
  - exists assertion_square. split; [now left | ].
    now apply validation_rejects_non_square.
Qed.

Lemma invalid_matrix_raises_AssertionError_witness :
  exists msg,
    (msg = assertion_square \/ msg = assertion_symmetric) /\
    find_max_community non_symmetric = Done (Raises "AssertionError" msg) /\
    find_connected_max_community non_symmetric = Done (Raises "AssertionError" msg) /\
    find_k_community non_symmetric 2 = Done (Raises "AssertionError" msg) /\
    find_connected_k_community non_symmetric 2 = Done (Raises "AssertionError" msg).
Proof.
  apply (invalid_matrix_raises_AssertionError non_symmetric 2).
  right. reflexivity.
Defined.

(** ** The k-community models *)

Lemma in_range i n : In i (range n) <-> (i < n)%nat.
Proof. unfold range. rewrite in_seq. lia. Qed.

Lemma in_x_vars n k i p :
  (i < n)%nat -> (p < k)%nat -> In (x2 i p, BINARY) (x_vars n k).
Proof.
  intros Hi Hp. unfold x_vars. apply in_flat_map. exists i. split.
  - now apply in_range.
  - apply in_map_iff. exists p. split; [reflexivity | now apply in_range].
Qed.

Lemma in_w_vars n k j1 j2 p q :
  (j1 < n)%nat -> (j2 < n)%nat -> (p < k)%nat -> (q < k)%nat ->
  In (w4 j1 j2 p q, BINARY) (w_vars n k).
Proof.
  intros H1 H2 Hp Hq. unfold w_vars.
  apply in_flat_map. exists j1. split; [now apply in_range | ].
  apply in_flat_map. exists j2. split; [now apply in_range | ].
  apply in_flat_map. exists p. split; [now apply in_range | ].
  apply in_map_iff. exists q. split; [reflexivity | now apply in_range].
Qed.

Lemma incl_link_linking n k j1 j2 p q :
  (j1 < n)%nat -> (j2 < n)%nat -> (p < k)%nat -> (q < k)%nat ->
  incl (link j1 j2 p q) (linking n k).
Proof.
  intros H1 H2 Hp Hq c Hc. unfold linking.
  apply in_flat_map. exists j1. split; [now apply in_range | ].
  apply in_flat_map. exists j2. split; [now apply in_range | ].
  apply in_flat_map. exists p. split; [now apply in_range | ].
  apply in_flat_map. exists q. split; [now apply in_range | exact Hc].
Qed.

Lemma in_at_least_two n k p :
  (p < k)%nat ->
  In (Constr ("atLeastTwoinCi_" ++ str p)
        (quicksum (map (fun i => Var (x2 i p)) (range n)) >== Num 2))
     (at_least_two n k).
Proof.
  intro Hp. unfold at_least_two. apply in_map_iff. exists p.
  split; [reflexivity | now apply in_range].
Qed.

Lemma in_exactly_one n k i :
  (i < n)%nat ->
  In (Constr ("everyvertexbelongsto1community_" ++ str i)
        (quicksum (map (fun p => Var (x2 i p)) (range k)) === Num 1))
     (exactly_one n k).
Proof.
  intro Hi. unfold exactly_one. apply in_map_iff. exists i.
  split; [reflexivity | now apply in_range].
Qed.

(** The shared part of the two models, read off a satisfying assignment. *)
Lemma core_of_constraints a n k vs cs :
  incl (x_vars n k ++ w_vars n k) vs ->
  incl (linking n k ++ at_least_two n k ++ exactly_one n k) cs ->
  Forall (in_domain a) vs -> Forall (sat a) cs ->
  partition_core a n k.
Proof.
  intros Hvs Hcs Hd Hc. rewrite Forall_forall in Hd, Hc.
  constructor.
  - intros i p Hi Hp.
    apply (Hd (x2 i p, BINARY)). apply Hvs, in_or_app. left. now apply in_x_vars.
  - intros j1 j2 p q H1 H2 Hp Hq.
    apply (Hd (w4 j1 j2 p q, BINARY)). apply Hvs, in_or_app. right. now apply in_w_vars.
  - intros j1 j2 p q H1 H2 Hp Hq. apply Forall_forall. intros c Hin.
    apply Hc, Hcs, in_or_app. left. apply (incl_link_linking n k j1 j2 p q); assumption.
  - intros p Hp.
    apply (Hc (Constr ("atLeastTwoinCi_" ++ str p)
                 (quicksum (map (fun i => Var (x2 i p)) (range n)) >== Num 2))).
    apply Hcs, in_or_app. right. apply in_or_app. left. now apply in_at_least_two.
  - intros i Hi.
    apply (Hc (Constr ("everyvertexbelongsto1community_" ++ str i)
                 (quicksum (map (fun p => Var (x2 i p)) (range k)) === Num 1))).
    apply Hcs, in_or_app. right. apply in_or_app. right. now apply in_exactly_one.
Qed.

Lemma k_model_core A k a :
  feasible (KCommunity.build_model A k) a -> partition_core a (shape0 A) k.
Proof.
  intros [Hd Hc]. eapply core_of_constraints; [ | | exact Hd | exact Hc]; simpl.
  - apply incl_refl.
  - apply incl_appr, incl_refl.
Qed.

Lemma connected_k_model_core A k a :
  feasible (ConnectedKCommunity.build_model A k) a -> partition_core a (shape0 A) k.
Proof.
  intros [Hd Hc]. eapply core_of_constraints; [ | | exact Hd | exact Hc]; simpl.
  - rewrite app_assoc. apply incl_appl, incl_refl.
  - apply incl_appr. rewrite !app_assoc. apply incl_appl, incl_refl.
Qed.

Lemma selected_In a x l i :
  In i (selected a x l) <-> In i l /\ gt_half (a (x i)) = true.
Proof. unfold selected. apply filter_In. Qed.

Section PartitionCore.

Variables (a : assignment) (n k : nat).
Hypothesis core : partition_core a n k.

(** Constraint 4 leaves each vertex exactly one community. *)
Lemma core_unique_community v :
  (v < n)%nat -> exists p, (p < k)%nat /\ selected a (x2 v) (range k) = [p].
Proof.
  intro Hv.
  pose proof (core_one a n k core v Hv) as H1.
  rewrite (sum_binary_count a (x2 v) (range k)) in H1.
  2:{ intros p Hp. apply (core_x_binary a n k core); [exact Hv | now apply in_range]. }
  change 1%Q with (inject_Z 1) in H1. apply -> inject_Z_injective in H1.
  destruct (selected a (x2 v) (range k)) as [ | p [ | p' l]] eqn:E;
    simpl in H1; try lia.
  exists p. split; [ | reflexivity].
  assert (Hin : In p (selected a (x2 v) (range k))) by (rewrite E; now left).
  apply selected_In in Hin. now apply in_range.
Qed.

(** Constraint 3 gives each community two members. *)
Lemma core_two_members p :
  (p < k)%nat -> (2 <= List.length (selected a (fun i => x2 i p) (range n)))%nat.
Proof.
  intro Hp.
  pose proof (core_two a n k core p Hp) as H2.
  rewrite (sum_binary_count a (fun i => x2 i p) (range n)) in H2.
  2:{ intros i Hi. apply (core_x_binary a n k core); [now apply in_range | exact Hp]. }
  change 2%Q with (inject_Z 2) in H2. rewrite <- Zle_Qle in H2. lia.
Qed.

Lemma communities_length : List.length (communities a n k) = k.
Proof. unfold communities, range. now rewrite length_map, length_seq. Qed.

Lemma in_communities lab S :
  In (lab, S) (communities a n k) <->
  exists p, (p < k)%nat /\ lab = (p + 1)%nat /\ S = selected a (fun i => x2 i p) (range n).
Proof.
  unfold communities. rewrite in_map_iff. split.
  - intros [p [E Hp]]. inversion E; subst. exists p.
    split; [now apply in_range | auto].
  - intros [p [Hp [-> ->]]]. exists p. split; [reflexivity | now apply in_range].
Qed.

Lemma communities_labels : map fst (communities a n k) = seq 1 k.
Proof.
  unfold communities, range. rewrite map_map. simpl.
  rewrite <- seq_shift. apply map_ext. intro p. lia.
Qed.

Lemma selected_NoDup x : NoDup (selected a x (range n)).
Proof. unfold selected, range. apply NoDup_filter, seq_NoDup. Qed.

Lemma communities_partition :
  (forall v, (v < n)%nat ->
     exists lab S, In (lab, S) (communities a n k) /\ In v S /\
       forall lab' S', In (lab', S') (communities a n k) -> In v S' ->
                       lab' = lab /\ S' = S) /\
  (forall lab S, In (lab, S) (communities a n k) ->
     (2 <= List.length S)%nat /\ NoDup S).
Proof.
  split.
  - intros v Hv. destruct (core_unique_community v Hv) as [p [Hp E]].
    assert (Hsel : forall q, (q < k)%nat -> gt_half (a (x2 v q)) = true -> q = p).
    { intros q Hq G.
      assert (Hin : In q (selected a (x2 v) (range k)))
        by (apply selected_In; split; [now apply in_range | exact G]).
      rewrite E in Hin. destruct Hin as [-> | []]. reflexivity. }
    assert (Gp : gt_half (a (x2 v p)) = true).
    { assert (Hin : In p (selected a (x2 v) (range k))) by (rewrite E; now left).
      now apply selected_In in Hin. }
    exists (p + 1)%nat, (selected a (fun i => x2 i p) (range n)). split; [ | split].
    + apply in_communities. exists p. auto.
    + apply selected_In. split; [now apply in_range | exact Gp].
    + intros lab' S' Hin Hv'. apply in_communities in Hin.
      destruct Hin as [q [Hq [-> ->]]]. apply selected_In in Hv'.
      destruct Hv' as [_ G]. rewrite (Hsel q Hq G). auto.
  - intros lab S Hin. apply in_communities in Hin.
    destruct Hin as [p [Hp [_ ->]]].
    split; [now apply core_two_members | apply selected_NoDup].
Qed.

End PartitionCore.

Lemma decode_communities what n k r c :
  KCommunity.decode what n k r = Returns (Communities c) ->
  exists a, X r = Some a /\ c = communities a n (Z.to_nat k).
Proof.
  unfold KCommunity.decode.
  destruct (Status_eqb (status r) INFEASIBLE); [discriminate | ].
  destruct (X r) as [a | ]; [ | discriminate].
  intro H. inversion H. eauto.
Qed.

Lemma two_parts_feasible : feasible (KCommunity.build_model two_edges 2) two_parts.
Proof. apply feasibleb_feasible. vm_compute. reflexivity. Qed.

Lemma two_parts_sound :
  reply_sound (KCommunity.build_model two_edges 2) (Reply OPTIMAL (Some two_parts)).
Proof.
  constructor; simpl.
  - intros a E. inversion E; subst. apply two_parts_feasible.
  - intros _. exists two_parts. split; [reflexivity | ]. split.
    + apply two_parts_feasible.
    + intros a' _. unfold objective_value. simpl. lra.
  - discriminate.
Qed.

(** C6. With a square symmetric matrix and n>=4, n>=2k, k>=2, whenever
    [find_k_community] or [find_connected_k_community] returns a community
    mapping in answer to a sound solver reply, the mapping has the k labels
    1..k, every vertex of the graph lies in exactly one community of it, and
    every community has at least 2 (distinct) members. *)
Theorem returned_mapping_is_partition :
  forall (A : ndarray) (k : Z) (r : reply) (c : list (nat * list nat)),
    is_square A = true -> is_symmetric A = true ->
    (4 <= shape0 A)%nat -> 2 * k <= Z.of_nat (shape0 A) -> 2 <= k ->
    (reply_sound (KCommunity.build_model A (Z.to_nat k)) r /\
     answer (find_k_community A k) r = Returns (Communities c))
    \/
    (reply_sound (ConnectedKCommunity.build_model A (Z.to_nat k)) r /\
     answer (find_connected_k_community A k) r = Returns (Communities c)) ->
    map fst c = seq 1 (Z.to_nat k) /\
    (forall v, (v < shape0 A)%nat ->
       exists lab S, In (lab, S) c /\ In v S /\
         forall lab' S', In (lab', S') c -> In v S' -> lab' = lab /\ S' = S) /\
    (forall lab S, In (lab, S) c -> (2 <= List.length S)%nat /\ NoDup S).
Proof.
  intros A k r c Hsq Hsym Hn Hnk Hk H.
  assert (Hcore : exists a, partition_core a (shape0 A) (Z.to_nat k) /\
                            c = communities a (shape0 A) (Z.to_nat k)).
  { destruct H as [[Hs Hr] | [Hs Hr]].
    - rewrite k_after_validation in Hr by assumption. unfold answer, exec in Hr.
      apply decode_communities in Hr. destruct Hr as [a [HX ->]].
      exists a. split; [ | reflexivity].
      apply (k_model_core A). now apply (sound_X _ _ Hs).
    - rewrite connected_k_after_validation in Hr by assumption. unfold answer, exec in Hr.
      apply decode_communities in Hr. destruct Hr as [a [HX ->]].
      exists a. split; [ | reflexivity].
      apply (connected_k_model_core A). now apply (sound_X _ _ Hs). }
  destruct Hcore as [a [Hcore ->]]. split.
  - apply communities_labels.
  - now apply communities_partition.
Qed.

Lemma returned_mapping_is_partition_witness :
  map fst [(1, [0; 1]); (2, [2; 3])]%nat = seq 1 (Z.to_nat 2) /\
  (forall v, (v < shape0 two_edges)%nat ->
     exists lab S, In (lab, S) [(1, [0; 1]); (2, [2; 3])]%nat /\ In v S /\
       forall lab' S', In (lab', S') [(1, [0; 1]); (2, [2; 3])]%nat -> In v S' ->
                       lab' = lab /\ S' = S) /\
  (forall lab S, In (lab, S) [(1, [0; 1]); (2, [2; 3])]%nat ->
     (2 <= List.length S)%nat /\ NoDup S).
Proof.
  apply (returned_mapping_is_partition two_edges 2 (Reply OPTIMAL (Some two_parts)));
    try reflexivity; try (simpl; lia).
  left. split; [exact two_parts_sound | reflexivity].
Defined.

(** ** The linking constraints *)

Lemma link_sat a j1 j2 p q :
  Forall (sat a) (link j1 j2 p q) <->
  (a (w4 j1 j2 p q) <= a (x2 j1 p))%Q /\
  (a (w4 j1 j2 p q) <= a (x2 j2 q))%Q /\
  (a (x2 j1 p) + a (x2 j2 q) - 1 <= a (w4 j1 j2 p q))%Q.
Proof.
  unfold link. rewrite !Forall_cons_iff. simpl. unfold holds. simpl.
  change (inject_Z 1) with 1%Q. intuition auto.
Qed.

Lemma link_product a j1 j2 p q :
  binary (a (w4 j1 j2 p q)) -> binary (a (x2 j1 p)) -> binary (a (x2 j2 q)) ->
  (Forall (sat a) (link j1 j2 p q) <->
   (a (w4 j1 j2 p q) == a (x2 j1 p) * a (x2 j2 q))%Q).
Proof.
  intros Hw Hx Hy. rewrite link_sat. split.
  - intros [L1 [L2 L3]].
    destruct Hw as [Hw | Hw], Hx as [Hx | Hx], Hy as [Hy | Hy];
      rewrite Hx, Hy; lra.
  - intro E.
    destruct Hx as [Hx | Hx], Hy as [Hy | Hy]; rewrite Hx, Hy in E;
      repeat split; lra.
Qed.

(** C9. For an assignment giving w[j1,j2,p,q], x[j1,p] and x[j2,q] values in
    {0,1}, the three linking constraints the loop emits hold together
    exactly when w = x[j1,p] * x[j2,q]; hence every assignment satisfying
    the k-community model or the connected k-community model has
    w[j1,j2,p,q] = x[j1,p] * x[j2,q] for all vertices j1, j2 and
    communities p, q. *)
Theorem linking_forces_product :
  (forall (a : assignment) (j1 j2 p q : nat),
     binary (a (w4 j1 j2 p q)) -> binary (a (x2 j1 p)) -> binary (a (x2 j2 q)) ->
     (Forall (sat a) (link j1 j2 p q) <->
      (a (w4 j1 j2 p q) == a (x2 j1 p) * a (x2 j2 q))%Q)) /\
  (forall (A : ndarray) (k : nat) (a : assignment),
     feasible (KCommunity.build_model A k) a \/
     feasible (ConnectedKCommunity.build_model A k) a ->
     forall j1 j2 p q,
       (j1 < shape0 A)%nat -> (j2 < shape0 A)%nat -> (p < k)%nat -> (q < k)%nat ->
       (a (w4 j1 j2 p q) == a (x2 j1 p) * a (x2 j2 q))%Q).
Proof.
  split.
  - exact link_product.
  - intros A k a H j1 j2 p q H1 H2 Hp Hq.
    assert (Hcore : partition_core a (shape0 A) k).
    { destruct H as [H | H]; [now apply k_model_core | now apply connected_k_model_core]. }
    apply link_product.
    + now apply (core_w_binary _ _ _ Hcore).
    + now apply (core_x_binary _ _ _ Hcore).
    + now apply (core_x_binary _ _ _ Hcore).
    + now apply (core_link _ _ _ Hcore).
Qed.

Lemma linking_forces_product_witness :
  (Forall (sat all_ones) (link 0 0 0 0) <->
   (all_ones (w4 0 0 0 0) == all_ones (x2 0 0) * all_ones (x2 0 0))%Q) /\
  (two_parts (w4 0 2 0 1) == two_parts (x2 0 0) * two_parts (x2 2 1))%Q.
Proof.
  split.
  - apply (proj1 linking_forces_product all_ones 0%nat 0%nat 0%nat 0%nat);
      right; reflexivity.
  - apply (proj2 linking_forces_product two_edges 2%nat two_parts);
      [left; exact two_parts_feasible | simpl; lia ..].
Defined.

(** ** The root constraints of the connected k-community model *)

Lemma in_root_constraint A n k p :
  (p < k)%nat ->
  In (Constr ("root_in_community_" ++ str p) (Var (x2 0 p) === Num 1))
     (connectivity A n k).
Proof.
  intro Hp. unfold connectivity. apply in_flat_map. exists p.
  split; [now apply in_range | ]. unfold connectivity_of. now left.
Qed.

Lemma root_constraint_in_model A k p :
  (p < k)%nat ->
  In (Constr ("root_in_community_" ++ str p) (Var (x2 0 p) === Num 1))
     (constrs (ConnectedKCommunity.build_model A k)).
Proof.
  intro Hp. simpl. do 4 (apply in_or_app; right). now apply in_root_constraint.
Qed.

Lemma exactly_one_in_model A k i :
  (i < shape0 A)%nat ->
  In (Constr ("everyvertexbelongsto1community_" ++ str i)
        (quicksum (map (fun p => Var (x2 i p)) (range k)) === Num 1))
     (constrs (ConnectedKCommunity.build_model A k)).
Proof.
  intro Hi. simpl. do 3 (apply in_or_app; right). apply in_or_app. left.
  now apply in_exactly_one.
Qed.

(** The root belongs to every community and to exactly one: with two
    communities or more nothing satisfies the model. *)
Lemma connected_k_infeasible A k a :
  (1 <= shape0 A)%nat -> (2 <= k)%nat ->
  ~ feasible (ConnectedKCommunity.build_model A k) a.
Proof.
  intros Hn Hk Hf.
  pose proof (connected_k_model_core A k a Hf) as Hcore.
  destruct Hf as [_ Hc]. rewrite Forall_forall in Hc.
  assert (Hroot : forall p, (p < k)%nat -> gt_half (a (x2 0 p)) = true).
  { intros p Hp. apply gt_half_one.
    exact (Hc _ (root_constraint_in_model A k p Hp)). }
  destruct (core_unique_community a (shape0 A) k Hcore 0%nat) as [p [Hp E]]; [lia | ].
  assert (H0 : In 0%nat (selected a (x2 0) (range k)))
    by (apply selected_In; split; [apply in_range; lia | apply Hroot; lia]).
  assert (H1 : In 1%nat (selected a (x2 0) (range k)))
    by (apply selected_In; split; [apply in_range; lia | apply Hroot; lia]).
  rewrite E in H0, H1. simpl in H0, H1. lia.
Qed.

Lemma decode_infeasible_model what n k m r :
  (forall a, ~ feasible m a) -> reply_sound m r ->
  (forall c, KCommunity.decode what n k r <> Returns (Communities c)) /\
  (reply_conclusive r ->
   KCommunity.decode what n k r
     = Returns (Message ("No " ++ what ++ strZ k ++ "-community exists."))).
Proof.
  intros Hinf Hs. split.
  - intros c Hc. apply decode_communities in Hc. destruct Hc as [a [HX _]].
    exact (Hinf a (sound_X _ _ Hs a HX)).
  - intros [Ho | Hi]; unfold KCommunity.decode.
    + destruct (sound_optimal _ _ Hs Ho) as [a [_ [Hf _]]]. now destruct (Hinf a).
    + now rewrite Hi.
Qed.

Lemma proved_infeasible_sound m :
  (forall a, ~ feasible m a) -> reply_sound m proved_infeasible.
Proof.
  intro Hinf. constructor; simpl; try discriminate. intros _. exact Hinf.
Qed.

(** C4. For a square symmetric matrix and k with n>=4, n>=2k, k>=2 the model
    [find_connected_k_community] submits contains the constraint
    x[0,p] = 1 for every community p and the constraint that vertex 0 is in
    exactly one community; no assignment satisfies it; so in answer to a
    sound solver reply the function never returns a community mapping, and
    when the solver has concluded it returns the message
    "No connected k-community exists.". *)
Theorem connected_k_model_is_infeasible :
  forall (A : ndarray) (k : Z),
    is_square A = true -> is_symmetric A = true ->
    (4 <= shape0 A)%nat -> 2 * k <= Z.of_nat (shape0 A) -> 2 <= k ->
    let m := ConnectedKCommunity.build_model A (Z.to_nat k) in
    submitted (find_connected_k_community A k) = Some m /\
    (forall p, (p < Z.to_nat k)%nat ->
       In (Constr ("root_in_community_" ++ str p) (Var (x2 0 p) === Num 1)) (constrs m)) /\
    In (Constr ("everyvertexbelongsto1community_" ++ str 0)
          (quicksum (map (fun p => Var (x2 0 p)) (range (Z.to_nat k))) === Num 1))
       (constrs m) /\
    (forall a, ~ feasible m a) /\
    (forall r, reply_sound m r ->
       (forall c, answer (find_connected_k_community A k) r <> Returns (Communities c)) /\
       (reply_conclusive r ->
        answer (find_connected_k_community A k) r
          = Returns (Message ("No connected " ++ strZ k ++ "-community exists.")))).
Proof.
  intros A k Hsq Hsym Hn Hnk Hk m.
  assert (Hinf : forall a, ~ feasible m a).
  { intro a. apply connected_k_infeasible; lia. }
  rewrite connected_k_after_validation by assumption.
  split; [reflexivity | ]. split; [ | split; [ | split]].
  - intros p Hp. now apply root_constraint_in_model.
  - apply exactly_one_in_model. lia.
  - exact Hinf.
  - intros r Hs. unfold answer, exec.
    exact (decode_infeasible_model "connected " (shape0 A) k m r Hinf Hs).
Qed.

Lemma connected_k_model_is_infeasible_witness :
  answer (find_connected_k_community two_edges 2) proved_infeasible
    = Returns (Message "No connected 2-community exists.").
Proof.
  assert (Hinf : forall a, ~ feasible (ConnectedKCommunity.build_model two_edges 2) a).
  { intro a. apply connected_k_infeasible; simpl; lia. }
  refine (proj2 (proj2 (proj2 (proj2 (proj2
    (connected_k_model_is_infeasible two_edges 2 eq_refl eq_refl _ _ _)))) proved_infeasible
    (proved_infeasible_sound _ Hinf)) _).
  - simpl. lia.
  - simpl. lia.
  - lia.
  - right. reflexivity.
Defined.

(** C3 (the code at the scenario's input).  On the graph of two disjoint
    edges with k = 2 the submitted model has no solution: in answer to a
    sound solver reply [find_connected_k_community] returns no community
    mapping, in particular not the two edges, and when the solver has
    concluded it returns "No connected 2-community exists.". *)
Theorem two_disjoint_edges_get_no_partition :
  forall r : reply,
    reply_sound (ConnectedKCommunity.build_model two_edges 2) r ->
    answer (find_connected_k_community two_edges 2) r
      <> Returns (Communities [(1, [0; 1]); (2, [2; 3])]%nat) /\
    (forall c, answer (find_connected_k_community two_edges 2) r
               <> Returns (Communities c)) /\
    (reply_conclusive r ->
     answer (find_connected_k_community two_edges 2) r
       = Returns (Message "No connected 2-community exists.")).
Proof.
  intros r Hs.
  assert (Hinf : forall a, ~ feasible (ConnectedKCommunity.build_model two_edges 2) a).
  { intro a. apply connected_k_infeasible; simpl; lia. }
  destruct (decode_infeasible_model "connected " 4 2 _ r Hinf Hs) as [Hno Hmsg].
  split; [apply Hno | split; [exact Hno | exact Hmsg]].
Qed.

Lemma two_disjoint_edges_get_no_partition_witness :
  answer (find_connected_k_community two_edges 2) proved_infeasible
    <> Returns (Communities [(1, [0; 1]); (2, [2; 3])]%nat).
Proof.
  refine (proj1 (two_disjoint_edges_get_no_partition proved_infeasible _)).
  apply proved_infeasible_sound.
  intro a. apply connected_k_infeasible; simpl; lia.
Defined.

(** ** Facts used by the instances *)

Lemma is_01_by_evaluation A :
  forallb (forallb (fun z => (z =? 0) || (z =? 1))) A = true -> is_01 A.
Proof.
  intros H i j. unfold get. rewrite forallb_forall in H.
  destruct (nth_in_or_default i A []) as [Hi | Hi].
  - specialize (H _ Hi). rewrite forallb_forall in H.
    destruct (nth_in_or_default j (nth i A []) 0) as [Hj | Hj].
    + specialize (H _ Hj). apply orb_true_iff in H. lia.
    + left. exact Hj.
  - rewrite Hi. left. now destruct j.
Qed.

Lemma isolated_root_reaches_nothing S v :
  reachable isolated_root S 0%nat v -> v = 0%nat.
Proof.
  induction 1 as [ | v w _ IH _ Hedge]; [reflexivity | ].
  subst v. exfalso. unfold get, isolated_root in Hedge. simpl in Hedge.
  do 5 (destruct w as [ | w]; simpl in Hedge; try discriminate Hedge).
Qed.

Lemma filter_none {T} (f : T -> bool) l :
  (forall x, In x l -> f x = false) -> filter f l = [].
Proof.
  induction l as [ | x l IH]; intro H; [reflexivity | ].
  simpl. rewrite (H x) by now left. apply IH. intros y Hy. apply H. now right.
Qed.

Lemma filter_one u n :
  (u < n)%nat -> filter (fun i => (i =? u)%nat) (range n) = [u].
Proof.
  unfold range. induction n as [ | n IH]; intro Hu; [lia | ].
  rewrite seq_S, filter_app. simpl.
  destruct (Nat.eq_dec u n) as [-> | Hne].
  - rewrite Nat.eqb_refl. rewrite filter_none; [reflexivity | ].
    intros x Hx. apply in_seq in Hx. apply Nat.eqb_neq. lia.
  - rewrite IH by lia. destruct (Nat.eqb_spec n u); [lia | reflexivity].
Qed.

Lemma sum_of_zeros a (x : nat -> var) l :
  (forall j, In j l -> (a (x j) == 0)%Q) ->
  (eval a (quicksum (map (fun j => Var (x j)) l)) == 0)%Q.
Proof.
  induction l as [ | j l IH]; intro H; [reflexivity | ].
  simpl map. rewrite eval_quicksum_cons. simpl eval at 1.
  rewrite (H j) by now left. rewrite IH by (intros; apply H; now right). lra.
Qed.

(** ** The max-community functions *)

Lemma max_never_returns_members A r key S size :
  answer (find_max_community A) r <> Returns (Members key S size) /\
  answer (find_connected_max_community A) r <> Returns (Members key S size).
Proof.
  destruct (is_square A) eqn:Hsq.
  - destruct (is_symmetric A) eqn:Hsym.
    + rewrite max_after_assertions, connected_max_after_assertions by assumption.
      destruct (shape0 A <? 3)%nat; split; discriminate.
    + destruct (validation_rejects_non_symmetric A 0 Hsq Hsym) as [-> [-> _]].
      split; discriminate.
  - destruct (validation_rejects_non_square A 0 Hsq) as [-> [-> _]].
    split; discriminate.
Qed.

(** The size constraints, for binary x: between 2 and n-1 vertices are
    selected. *)
Lemma size_constraints_selected a n :
  (forall i, (i < n)%nat -> binary (a (x1 i))) ->
  Forall (sat a) (size_constraints n) ->
  (2 <= List.length (selected a x1 (range n)))%nat /\
  Z.of_nat (List.length (selected a x1 (range n))) <= Z.of_nat n - 1.
Proof.
  intros Hb Hc. unfold size_constraints in Hc.
  apply Forall_cons_iff in Hc. destruct Hc as [Hmin Hc].
  apply Forall_cons_iff in Hc. destruct Hc as [Hmax _].
  unfold sat, holds in Hmin, Hmax. cbn [rel lhs rhs eval] in Hmin, Hmax.
  rewrite (sum_binary_count a x1 (range n)) in Hmin, Hmax
    by (intros i Hi; apply Hb; apply in_range; exact Hi).
  rewrite <- Zle_Qle in Hmin, Hmax. lia.
Qed.

Lemma initial_model_selected A a :
  feasible (MaxCommunity.initial_model A) a ->
  (2 <= List.length (selected a x1 (range (shape0 A))))%nat /\
  Z.of_nat (List.length (selected a x1 (range (shape0 A)))) <= Z.of_nat (shape0 A) - 1.
Proof.
  intros [Hd Hc]. cbn [vars constrs MaxCommunity.initial_model] in Hd, Hc.
  apply size_constraints_selected; [ | exact Hc].
  intros i Hi. rewrite Forall_forall in Hd.
  apply (Hd (x1 i, BINARY)). apply in_map_iff. exists i.
  split; [reflexivity | now apply in_range].
Qed.


(** C2 (the claim as written fails).  On the triangle no solver reply
    makes [find_max_community] return the three vertices with size 3, and
    no assignment that selects the three vertices satisfies the size
    constraints of its model. *)
Lemma triangle_never_returns_three_vertices :
  ~ (exists r, answer (find_max_community triangle) r
               = Returns (Members "PDS" [0; 1; 2]%nat 3)) /\
  ~ (exists a, feasible (MaxCommunity.initial_model triangle) a /\
               selected a x1 (range 3) = [0; 1; 2]%nat).
Proof.
  split.
  - intros [r H]. now apply (max_never_returns_members triangle r "PDS" [0; 1; 2]%nat 3%nat).
  - intros [a [Hf Hs]]. apply initial_model_selected in Hf.
    change (shape0 triangle) with 3%nat in Hf. rewrite Hs in Hf. simpl in Hf. lia.
Qed.

(** C2 (amended).  On the triangle the model [find_max_community] sets up
    carries the constraints min_size_S and max_size_S, sum x >= 2 and
    sum x <= n - 1 = 2: every assignment that satisfies it selects exactly
    two of the three vertices, [0,1], [0,2] or [1,2]; and the function
    does not return all three vertices. *)
Theorem triangle_selections_have_two_vertices :
  forall a : assignment,
    feasible (MaxCommunity.initial_model triangle) a ->
    constrs (MaxCommunity.initial_model triangle) = size_constraints 3 /\
    In (selected a x1 (range 3)) [[0; 1]; [0; 2]; [1; 2]]%nat /\
    forall r, answer (find_max_community triangle) r
              <> Returns (Members "PDS" [0; 1; 2]%nat 3).
Proof.
  intros a Hf. split; [reflexivity | ]. split.
  - apply initial_model_selected in Hf. change (shape0 triangle) with 3%nat in Hf.
    revert Hf. unfold selected, range. simpl.
    destruct (gt_half (a (x1 0))), (gt_half (a (x1 1))), (gt_half (a (x1 2)));
      simpl; intros [H1 H2]; try lia; auto.
  - intro r. now apply (max_never_returns_members triangle r "PDS" [0; 1; 2]%nat 3%nat).
Qed.

Lemma triangle_selections_have_two_vertices_witness :
  constrs (MaxCommunity.initial_model triangle) = size_constraints 3 /\
  In (selected (first_vertices 2) x1 (range 3)) [[0; 1]; [0; 2]; [1; 2]]%nat /\
  forall r, answer (find_max_community triangle) r
            <> Returns (Members "PDS" [0; 1; 2]%nat 3).
Proof.
  apply (triangle_selections_have_two_vertices (first_vertices 2)).
  apply feasibleb_feasible. vm_compute. reflexivity.
Defined.

(** ** The connectivity constraints *)

(** With zero flow, the connectivity constraints of
    [connected_max_community.py] hold for every selection that contains the
    root. *)
Lemma zero_flow_connectivity A n a :
  (forall i, (i < n)%nat -> binary (a (x1 i))) -> (a (x1 0) == 1)%Q ->
  Forall (sat (zero_flow a)) (connectivity_constraints A n).
Proof.
  intros Hb Hroot. unfold connectivity_constraints.
  rewrite !Forall_app. split; [ | split].
  - constructor; [exact Hroot | constructor].
  - apply Forall_forall. intros c Hc. unfold flow_conservation in Hc.
    apply in_flat_map in Hc. destruct Hc as [i [_ Hc]].
    revert Hc. destruct (negb (i =? ConnectedMaxCommunity.root)%nat); intro Hc;
      [ | simpl in Hc; contradiction].
    destruct Hc as [<- | []]. unfold sat, holds. cbn [rel lhs rhs].
    rewrite (sum_of_zeros (zero_flow a) (fun j => f2 j i)) by (intros; reflexivity).
    rewrite (sum_of_zeros (zero_flow a) (fun j => f2 i j)) by (intros; reflexivity).
    reflexivity.
  - apply Forall_forall. intros c Hc. unfold flow_capacity in Hc.
    apply in_flat_map in Hc. destruct Hc as [i [Hi Hc]].
    apply in_flat_map in Hc. destruct Hc as [j [Hj Hc]].
    apply in_range in Hi, Hj.
    revert Hc. destruct (get A i j =? 1); intro Hc; [ | simpl in Hc; contradiction].
    destruct Hc as [<- | [<- | []]]; unfold sat, holds; cbn [rel lhs rhs eval zero_flow].
    + destruct (Hb i Hi) as [E | E]; rewrite E; lra.
    + destruct (Hb j Hj) as [E | E]; rewrite E; lra.
Qed.

(** The same for the connectivity constraints of one community in
    [connected_k_community.py]. *)
Lemma zero_flow_connectivity_of A n p a :
  (forall i, (i < n)%nat -> binary (a (x2 i p))) -> (a (x2 0 p) == 1)%Q ->
  Forall (sat (zero_flow a)) (connectivity_of A n p).
Proof.
  intros Hb Hroot. unfold connectivity_of.
  rewrite !Forall_app. split; [ | split].
  - constructor; [exact Hroot | constructor].
  - apply Forall_forall. intros c Hc.
    apply in_flat_map in Hc. destruct Hc as [i [_ Hc]].
    revert Hc. destruct (negb (i =? ConnectedKCommunity.root)%nat); intro Hc;
      [ | simpl in Hc; contradiction].
    destruct Hc as [<- | []]. unfold sat, holds. cbn [rel lhs rhs].
    rewrite (sum_of_zeros (zero_flow a) (fun j => f3 j i p)) by (intros; reflexivity).
    rewrite (sum_of_zeros (zero_flow a) (fun j => f3 i j p)) by (intros; reflexivity).
    reflexivity.
  - apply Forall_forall. intros c Hc.
    apply in_flat_map in Hc. destruct Hc as [i [Hi Hc]].
    apply in_flat_map in Hc. destruct Hc as [j [Hj Hc]].
    apply in_range in Hi, Hj.
    revert Hc. destruct (get A i j =? 1); intro Hc; [ | simpl in Hc; contradiction].
    destruct Hc as [<- | [<- | []]]; unfold sat, holds; cbn [rel lhs rhs eval zero_flow].
    + destruct (Hb i Hi) as [E | E]; rewrite E; lra.
    + destruct (Hb j Hj) as [E | E]; rewrite E; lra.
Qed.

(** C1 (the code at the failing input).  On [isolated_root],
    [find_connected_max_community] raises a [TypeError] when it adds the
    first community constraint and returns no community; and the model it
    has set up by then, with all its connectivity constraints, is satisfied
    by the selection [0, 1, 2] with zero flow, in which vertex 1 cannot be
    reached from the root 0: the flow constraints do not certify
    reachability. *)
Theorem connected_max_fails_on_isolated_root :
  (exists msg, find_connected_max_community isolated_root = Done (Raises "TypeError" msg)) /\
  incl (connectivity_constraints isolated_root 4)
       (constrs (ConnectedMaxCommunity.initial_model isolated_root)) /\
  feasible (ConnectedMaxCommunity.initial_model isolated_root) (first_vertices 3) /\
  selected (first_vertices 3) x1 (range 4) = [0; 1; 2]%nat /\
  ~ reachable isolated_root [0; 1; 2]%nat 0%nat 1%nat.
Proof.
  split; [ | split; [ | split; [ | split]]].
  - exists not_linear. now rewrite connected_max_after_assertions.
  - cbn [constrs ConnectedMaxCommunity.initial_model].
    change (shape0 isolated_root) with 4%nat. apply incl_appr, incl_refl.
  - apply feasibleb_feasible. vm_compute. reflexivity.
  - reflexivity.
  - intro Hreach. apply isolated_root_reaches_nothing in Hreach. discriminate Hreach.
Qed.

(** ** Solver statuses at the interface *)



(** * Further properties of the four functions *)

(** ** The density constraints of the k-community model in terms of the graph *)

Lemma eval_quicksum_ext a (f g : nat -> expr) l :
  (forall j, In j l -> (eval a (f j) == eval a (g j))%Q) ->
  (eval a (quicksum (map f l)) == eval a (quicksum (map g l)))%Q.
Proof.
  induction l as [ | j l IH]; intro H; [reflexivity | ].
  simpl map. rewrite !eval_quicksum_cons.
  rewrite (H j) by now left. rewrite IH by (intros; apply H; now right). reflexivity.
Qed.

Lemma in_density A n k i p q :
  (i < n)%nat -> (p < k)%nat -> (q < k)%nat -> p <> q ->
  In (density_constraint A n i p q) (density A n k).
Proof.
  intros Hi Hp Hq Hpq. unfold density.
  apply in_flat_map. exists i. split; [now apply in_range | ].
  apply in_flat_map. exists p. split; [now apply in_range | ].
  apply in_flat_map. exists q. split; [now apply in_range | ].
  destruct (Nat.eqb_spec p q); [contradiction | now left].
Qed.

Section Density.

Variables (a : assignment) (A : ndarray) (n k : nat).
Hypothesis core : partition_core a n k.
Hypothesis A01 : is_01 A.

Let C (p : nat) := selected a (fun i => x2 i p) (range n).

(** The sum of w[j1, j2, p, q] over j2 is x[j1, p] times the size of q. *)
Lemma interaction_row j1 p q l :
  (j1 < n)%nat -> (p < k)%nat -> (q < k)%nat -> (forall j2, In j2 l -> (j2 < n)%nat) ->
  (eval a (quicksum (map (fun j2 => Var (w4 j1 j2 p q)) l))
   == a (x2 j1 p) * inject_Z (Z.of_nat (List.length (selected a (fun i => x2 i q) l))))%Q.
Proof.
  intros H1 Hp Hq. induction l as [ | j2 l IH]; intro Hl.
  - simpl. ring.
  - simpl map. rewrite eval_quicksum_cons, IH by (intros; apply Hl; now right).
    assert (H2 : (j2 < n)%nat) by (apply Hl; now left).
    assert (Hw : (a (w4 j1 j2 p q) == a (x2 j1 p) * a (x2 j2 q))%Q).
    { apply link_product.
      - now apply (core_w_binary _ _ _ core).
      - now apply (core_x_binary _ _ _ core).
      - now apply (core_x_binary _ _ _ core).
      - now apply (core_link _ _ _ core). }
    simpl eval at 1. rewrite Hw. unfold selected. simpl filter.
    destruct (binary_cases _ (core_x_binary _ _ _ core j2 q H2 Hq)) as [[E Q1] | [E Q0]];
      rewrite E.
    + simpl List.length. rewrite Nat2Z.inj_succ. unfold Z.succ. rewrite inject_Z_plus, Q1.
      change (inject_Z 1) with 1%Q. ring.
    + rewrite Q0. ring.
Qed.

(** The sum of A[i, j1] x[j1, p] c over j1 is c times the number of
    neighbours of i in community p. *)
Lemma interaction_sum i p (c : Q) (g : nat -> expr) l :
  (p < k)%nat -> (forall j1, In j1 l -> (j1 < n)%nat) ->
  (forall j1, In j1 l -> (eval a (g j1) == a (x2 j1 p) * c)%Q) ->
  (eval a (quicksum (map (fun j1 => Mul (Num (get A i j1)) (g j1)) l))
   == inject_Z (Z.of_nat (neighbours_in A (selected a (fun v => x2 v p) l) i)) * c)%Q.
Proof.
  intros Hp. induction l as [ | j1 l IH]; intros Hl Hg.
  - simpl. ring.
  - simpl map. rewrite eval_quicksum_cons.
    rewrite IH by (intros; first [apply Hl | apply Hg]; now right).
    simpl eval at 1. rewrite (Hg j1) by now left.
    unfold neighbours_in, selected. simpl filter.
    assert (H1 : (j1 < n)%nat) by (apply Hl; now left).
    destruct (binary_cases _ (core_x_binary _ _ _ core j1 p H1 Hp)) as [[E Q1] | [E Q0]];
      rewrite E.
    + simpl filter. rewrite Q1. destruct (A01 i j1) as [Z0 | Z1].
      * rewrite Z0. simpl. ring.
      * rewrite Z1. simpl Z.eqb. cbv iota. simpl List.length.
        rewrite Nat2Z.inj_succ. unfold Z.succ. rewrite inject_Z_plus.
        change (inject_Z 1) with 1%Q. ring.
    + rewrite Q0. ring.
Qed.

Lemma N_C_value i p q :
  (p < k)%nat -> (q < k)%nat ->
  (eval a (quicksum (map (fun j1 =>
      Mul (Num (get A i j1)) (quicksum (map (fun j2 => Var (w4 j1 j2 p q)) (range n))))
      (range n)))
   == inject_Z (Z.of_nat (neighbours_in A (C p) i))
      * inject_Z (Z.of_nat (List.length (C q))))%Q.
Proof.
  intros Hp Hq.
  apply (interaction_sum i p _
           (fun j1 => quicksum (map (fun j2 => Var (w4 j1 j2 p q)) (range n)))).
  - exact Hp.
  - intros j1 Hj. now apply in_range.
  - intros j1 Hj. apply interaction_row; auto.
    + now apply in_range.
    + intros j2 Hj2. now apply in_range.
Qed.

Lemma correction_value i q :
  (q < k)%nat ->
  (eval a (quicksum (map (fun l => Mul (Var (x2 l q)) (Num (get A i l))) (range n)))
   == inject_Z (Z.of_nat (neighbours_in A (C q) i)))%Q.
Proof.
  intro Hq.
  rewrite (eval_quicksum_ext a _ (fun l => Mul (Num (get A i l)) (Var (x2 l q)))).
  2:{ intros j _. simpl. ring. }
  rewrite (interaction_sum i q 1%Q (fun l => Var (x2 l q))).
  - fold (C q). ring.
  - exact Hq.
  - intros j Hj. now apply in_range.
  - intros j _. simpl. ring.
Qed.

(** A density constraint of a member of p against q, in terms of the graph. *)
Lemma density_members i p q :
  (p < k)%nat -> (q < k)%nat ->
  sat a (density_constraint A n i p q) -> In i (C p) ->
  Z.of_nat (neighbours_in A (C q) i) * (Z.of_nat (List.length (C p)) - 1)
  <= Z.of_nat (neighbours_in A (C p) i) * Z.of_nat (List.length (C q)).
Proof.
  intros Hp Hq Hsat Hi. unfold C in Hi. apply selected_In in Hi. destruct Hi as [Hi G].
  apply in_range in Hi.
  apply (gt_half_binary _ (core_x_binary _ _ _ core i p Hi Hp)) in G.
  specialize (Hsat G). unfold holds in Hsat. cbn [rel lhs rhs eval] in Hsat.
  rewrite (N_C_value i p q Hp Hq), (N_C_value i q p Hq Hp), (correction_value i q Hq) in Hsat.
  unfold Qminus in Hsat.
  rewrite <- !inject_Z_mult, <- inject_Z_opp, <- inject_Z_plus, <- Zle_Qle in Hsat. lia.
Qed.

End Density.

Lemma density_in_k_model A k a i p q :
  feasible (KCommunity.build_model A k) a ->
  (i < shape0 A)%nat -> (p < k)%nat -> (q < k)%nat -> p <> q ->
  sat a (density_constraint A (shape0 A) i p q).
Proof.
  intros [_ Hc] Hi Hp Hq Hpq. rewrite Forall_forall in Hc. apply Hc.
  simpl. apply in_or_app. left. now apply in_density.
Qed.

(** X6. For a square symmetric 0/1 matrix and n>=4, n>=2k, k>=2, every
    community mapping [find_k_community] returns in answer to a sound
    solver reply is proportionally dense: for a vertex i of a community S
    and any other community S' of the mapping,
    d_S(i) * |S'| >= d_S'(i) * (|S| - 1), where d_T(i) is the number of
    members v of T with A[i, v] = 1. *)
Theorem k_community_mapping_is_dense :
  forall (A : ndarray) (k : Z) (r : reply) (c : list (nat * list nat)),
    is_square A = true -> is_symmetric A = true -> is_01 A ->
    (4 <= shape0 A)%nat -> 2 * k <= Z.of_nat (shape0 A) -> 2 <= k ->
    reply_sound (KCommunity.build_model A (Z.to_nat k)) r ->
    answer (find_k_community A k) r = Returns (Communities c) ->
    forall lab S lab' S' i,
      In (lab, S) c -> In (lab', S') c -> lab <> lab' -> In i S ->
      Z.of_nat (neighbours_in A S i) * Z.of_nat (List.length S')
      >= Z.of_nat (neighbours_in A S' i) * (Z.of_nat (List.length S) - 1).
Proof.
  intros A k r c Hsq Hsym H01 Hn Hnk Hk Hs Hr lab S lab' S' i HS HS' Hlab Hi.
  rewrite k_after_validation in Hr by assumption. unfold answer, exec in Hr.
  apply decode_communities in Hr. destruct Hr as [a [HX ->]].
  pose proof (sound_X _ _ Hs a HX) as Hf.
  pose proof (k_model_core A _ a Hf) as Hcore.
  apply (in_communities a (shape0 A) (Z.to_nat k)) in HS.
  apply (in_communities a (shape0 A) (Z.to_nat k)) in HS'.
  destruct HS as [p [Hp [-> ->]]]. destruct HS' as [q [Hq [-> ->]]].
  assert (Hpq : p <> q) by lia.
  apply Z.le_ge.
  apply (density_members a A (shape0 A) (Z.to_nat k) Hcore H01 i p q Hp Hq); [ | exact Hi].
  apply (density_in_k_model A (Z.to_nat k)); auto.
  apply selected_In in Hi. now apply in_range.
Qed.

Lemma k_community_mapping_is_dense_witness :
  Z.of_nat (neighbours_in two_edges [0; 1]%nat 0) * Z.of_nat (List.length [2; 3]%nat)
  >= Z.of_nat (neighbours_in two_edges [2; 3]%nat 0) * (Z.of_nat (List.length [0; 1]%nat) - 1).
Proof.
  apply (k_community_mapping_is_dense two_edges 2 (Reply OPTIMAL (Some two_parts))
           [(1, [0; 1]); (2, [2; 3])]%nat eq_refl eq_refl
           (is_01_by_evaluation two_edges eq_refl))
    with (lab := 1%nat) (lab' := 2%nat).
  - simpl. lia.
  - simpl. lia.
  - lia.
  - exact two_parts_sound.
  - reflexivity.
  - simpl. auto.
  - simpl. auto.
  - discriminate.
  - simpl. auto.
Defined.

(** ** The shape of the returned lists *)

Lemma seq_increasing s n : StronglySorted lt (seq s n).
Proof.
  revert s. induction n as [ | n IH]; intro s; simpl; constructor.
  - apply IH.
  - apply Forall_forall. intros x Hx. apply in_seq in Hx. lia.
Qed.

Lemma filter_increasing (f : nat -> bool) l :
  StronglySorted lt l -> StronglySorted lt (filter f l).
Proof.
  induction 1 as [ | x l Hl IH Hx]; simpl; [constructor | ].
  destruct (f x); [ | exact IH]. constructor; [exact IH | ].
  apply Forall_forall. intros y Hy. apply filter_In in Hy.
  rewrite Forall_forall in Hx. now apply Hx.
Qed.

Lemma selected_shape a x n :
  StronglySorted lt (selected a x (range n)) /\
  Forall (fun v => (v < n)%nat) (selected a x (range n)).
Proof.
  split.
  - apply filter_increasing, seq_increasing.
  - apply Forall_forall. intros v Hv. apply selected_In in Hv. now apply in_range.
Qed.

Lemma k_run_communities A k r c :
  answer (find_k_community A k) r = Returns (Communities c) \/
  answer (find_connected_k_community A k) r = Returns (Communities c) ->
  exists a, c = communities a (shape0 A) (Z.to_nat k).
Proof.
  unfold find_k_community, find_connected_k_community.
  destruct (is_square A); simpl negb; cbv iota; [ | intros [H | H]; discriminate H].
  destruct (is_symmetric A); simpl negb; cbv iota; [ | intros [H | H]; discriminate H].
  destruct (shape0 A <? 4)%nat; [intros [H | H]; discriminate H | ].
  destruct (Z.of_nat (shape0 A) <? 2 * k); [intros [H | H]; discriminate H | ].
  destruct (k <? 2); [intros [H | H]; discriminate H | ].
  unfold answer, exec.
  intros [H | H]; apply decode_communities in H; destruct H as [a [_ ->]]; eauto.
Qed.

(** X7. Whatever the matrix and whatever the solver replies, a mapping
    returned by [find_k_community] or [find_connected_k_community] has the
    keys 1..k in order, and each of its lists is strictly increasing with
    all entries below n. *)
Theorem returned_lists_are_increasing :
  forall (A : ndarray) (k : Z) (r : reply) (c : list (nat * list nat)),
    answer (find_k_community A k) r = Returns (Communities c) \/
    answer (find_connected_k_community A k) r = Returns (Communities c) ->
    map fst c = seq 1 (Z.to_nat k) /\
    forall lab S, In (lab, S) c ->
      StronglySorted lt S /\ Forall (fun v => (v < shape0 A)%nat) S.
Proof.
  intros A k r c H. apply k_run_communities in H. destruct H as [a ->]. split.
  - apply communities_labels.
  - intros lab S Hin. apply in_communities in Hin.
    destruct Hin as [p [_ [_ ->]]]. apply selected_shape.
Qed.

Lemma returned_lists_are_increasing_witness :
  map fst [(1, [0; 1]); (2, [2; 3])]%nat = seq 1 (Z.to_nat 2) /\
  forall lab S, In (lab, S) [(1, [0; 1]); (2, [2; 3])]%nat ->
    StronglySorted lt S /\ Forall (fun v => (v < shape0 two_edges)%nat) S.
Proof.
  apply (returned_lists_are_increasing two_edges 2 (Reply OPTIMAL (Some two_parts))).
  left. reflexivity.
Defined.

(** ** Which validation message is returned *)

(** X8. For a square symmetric matrix, the two k-community functions
    return "The graph has less than 4 vertices." exactly when n<4,
    "The number of vertices must be at least 2*k." exactly when n>=4 and
    n<2k, "k must be at least 2." exactly when n>=4 and k<2 (whatever the
    sign of k), and submit a model exactly when n>=4, n>=2k and k>=2; the
    first failed check in this order decides. *)
Theorem k_validation_table :
  forall (A : ndarray) (k : Z),
    is_square A = true -> is_symmetric A = true ->
    let n := shape0 A in
    forall c, c = find_k_community A k \/ c = find_connected_k_community A k ->
      (c = Done (Returns (Message less_than_4)) <-> (n < 4)%nat) /\
      (c = Done (Returns (Message less_than_2k)) <-> (4 <= n)%nat /\ Z.of_nat n < 2 * k) /\
      (c = Done (Returns (Message k_less_than_2)) <-> (4 <= n)%nat /\ k < 2) /\
      (submitted c <> None <-> (4 <= n)%nat /\ 2 * k <= Z.of_nat n /\ 2 <= k).
Proof.
  intros A k Hsq Hsym n c Hc.
  assert (Hcases :
    ((n < 4)%nat /\ c = Done (Returns (Message less_than_4))) \/
    ((4 <= n)%nat /\ Z.of_nat n < 2 * k /\ c = Done (Returns (Message less_than_2k))) \/
    ((4 <= n)%nat /\ 2 * k <= Z.of_nat n /\ k < 2 /\
       c = Done (Returns (Message k_less_than_2))) \/
    ((4 <= n)%nat /\ 2 * k <= Z.of_nat n /\ 2 <= k /\ exists m d, c = Optimize m d)).
  { destruct Hc as [-> | ->];
      unfold find_k_community, find_connected_k_community;
      rewrite Hsq, Hsym; simpl negb; cbv iota; fold n;
      (destruct (Nat.ltb_spec n 4); [left; auto | ]);
      (destruct (Z.ltb_spec (Z.of_nat n) (2 * k)); [right; left; auto | ]);
      (destruct (Z.ltb_spec k 2); [right; right; left; auto | ]);
      do 3 right; repeat split; auto; eauto. }
  clear Hc. clearbody n.
  destruct Hcases as [[H1 ->] | [[H1 [H2 ->]] | [[H1 [H2 [H3 ->]]] | [H1 [H2 [H3 [m [d ->]]]]]]]];
    repeat split; intros; cbn [submitted] in *;
    try discriminate; try lia; try congruence; auto.
Qed.

Lemma k_validation_table_witness :
  (find_k_community triangle 1 = Done (Returns (Message less_than_4))
     <-> (shape0 triangle < 4)%nat) /\
  (find_k_community triangle 1 = Done (Returns (Message less_than_2k))
     <-> (4 <= shape0 triangle)%nat /\ Z.of_nat (shape0 triangle) < 2 * 1) /\
  (find_k_community triangle 1 = Done (Returns (Message k_less_than_2))
     <-> (4 <= shape0 triangle)%nat /\ 1 < 2) /\
  (submitted (find_k_community triangle 1) <> None
     <-> (4 <= shape0 triangle)%nat /\ 2 * 1 <= Z.of_nat (shape0 triangle) /\ 2 <= 1).
Proof.
  apply (k_validation_table triangle 1 eq_refl eq_refl). left. reflexivity.
Defined.

(** ** The size of the k-community models *)

Lemma length_range n : List.length (range n) = n.
Proof. apply length_seq. Qed.

Lemma length_nested {T} (f : nat -> list T) l c :
  (forall x, In x l -> List.length (f x) = c) ->
  List.length (flat_map f l) = (List.length l * c)%nat.
Proof. apply flat_map_constant_length. Qed.

Lemma filter_is (p k : nat) :
  (p < k)%nat -> filter (fun q => (p =? q)%nat) (range k) = [p].
Proof.
  intro Hp. rewrite <- (filter_one p k Hp). apply filter_ext. intro q. apply Nat.eqb_sym.
Qed.

(** One density constraint per community other than p. *)
Lemma length_others {T} (c : nat -> T) p k :
  (p < k)%nat ->
  List.length (flat_map (fun q => if negb (p =? q)%nat then [c q] else []) (range k))
  = (k - 1)%nat.
Proof.
  intro Hp.
  assert (E : forall l, flat_map (fun q => if negb (p =? q)%nat then [c q] else []) l
                        = map c (filter (fun q => negb (p =? q)%nat) l)).
  { induction l as [ | q l IH]; [reflexivity | ].
    simpl. destruct (p =? q)%nat; simpl; now rewrite IH. }
  rewrite E, length_map.
  pose proof (filter_length (fun q => (p =? q)%nat) (range k)) as H.
  rewrite filter_is, length_range in H by assumption. simpl in H. lia.
Qed.

(** X9. The model of [find_k_community] has n*k + n*n*k*k variables and
    n*k*(k-1) density constraints, 3*n*n*k*k linking constraints, k size
    constraints and n assignment constraints; the model of
    [find_connected_k_community] has n*n*k flow variables more. *)
Theorem k_model_size :
  forall (A : ndarray) (k : nat),
    let n := shape0 A in
    List.length (vars (KCommunity.build_model A k)) = (n * k + n * (n * (k * k)))%nat /\
    List.length (constrs (KCommunity.build_model A k))
      = (n * (k * (k - 1)) + n * (n * (k * (k * 3))) + k + n)%nat /\
    List.length (vars (ConnectedKCommunity.build_model A k))
      = (n * k + n * (n * (k * k)) + n * (n * k))%nat.
Proof.
  intros A k n.
  assert (Hx : List.length (x_vars n k) = (n * k)%nat).
  { unfold x_vars. rewrite (length_nested _ _ k), length_range; [reflexivity | ].
    intros. now rewrite length_map, length_range. }
  assert (Hw : List.length (w_vars n k) = (n * (n * (k * k)))%nat).
  { unfold w_vars.
    rewrite (length_nested _ _ (n * (k * k))), length_range; [reflexivity | ]. intros.
    rewrite (length_nested _ _ (k * k)), length_range; [reflexivity | ]. intros.
    rewrite (length_nested _ _ k), length_range; [reflexivity | ]. intros.
    now rewrite length_map, length_range. }
  assert (Hf : List.length (f_vars n k) = (n * (n * k))%nat).
  { unfold f_vars.
    rewrite (length_nested _ _ (n * k)), length_range; [reflexivity | ]. intros.
    rewrite (length_nested _ _ k), length_range; [reflexivity | ]. intros.
    now rewrite length_map, length_range. }
  assert (Hd : List.length (density A n k) = (n * (k * (k - 1)))%nat).
  { unfold density.
    rewrite (length_nested _ _ (k * (k - 1))), length_range; [reflexivity | ]. intros i _.
    rewrite (length_nested _ _ (k - 1)), length_range; [reflexivity | ]. intros p Hp.
    apply length_others. now apply in_range. }
  assert (Hl : List.length (linking n k) = (n * (n * (k * (k * 3))))%nat).
  { unfold linking.
    rewrite (length_nested _ _ (n * (k * (k * 3)))), length_range; [reflexivity | ]. intros.
    rewrite (length_nested _ _ (k * (k * 3))), length_range; [reflexivity | ]. intros.
    rewrite (length_nested _ _ (k * 3)), length_range; [reflexivity | ]. intros.
    rewrite (length_nested _ _ 3), length_range; [reflexivity | ]. intros. reflexivity. }
  assert (H2 : List.length (at_least_two n k) = k).
  { unfold at_least_two. now rewrite length_map, length_range. }
  assert (H1 : List.length (exactly_one n k) = n).
  { unfold exactly_one. now rewrite length_map, length_range. }
  cbn [vars constrs KCommunity.build_model ConnectedKCommunity.build_model]. fold n.
  rewrite !length_app, Hx, Hw, Hf, Hd, Hl, H2, H1. repeat split; lia.
Qed.

(** ** The k-community model in terms of the graph *)

Lemma k_feasible_iff A k a :
  feasible (KCommunity.build_model A k) a <->
  partition_core a (shape0 A) k /\
  forall i p q, (i < shape0 A)%nat -> (p < k)%nat -> (q < k)%nat -> p <> q ->
                sat a (density_constraint A (shape0 A) i p q).
Proof.
  split.
  - intro Hf. split; [now apply k_model_core | ].
    intros i p q Hi Hp Hq Hpq. now apply (density_in_k_model A k).
  - intros [Hcore Hdens]. split; cbn [vars constrs KCommunity.build_model].
    + apply Forall_app. split; apply Forall_forall; intros d Hd.
      * unfold x_vars in Hd. apply in_flat_map in Hd. destruct Hd as [i [Hi Hd]].
        apply in_map_iff in Hd. destruct Hd as [p [<- Hp]]. apply in_range in Hi, Hp.
        now apply (core_x_binary _ _ _ Hcore).
      * unfold w_vars in Hd.
        apply in_flat_map in Hd. destruct Hd as [j1 [H1 Hd]].
        apply in_flat_map in Hd. destruct Hd as [j2 [H2 Hd]].
        apply in_flat_map in Hd. destruct Hd as [p [Hp Hd]].
        apply in_map_iff in Hd. destruct Hd as [q [<- Hq]].
        apply in_range in H1, H2, Hp, Hq.
        now apply (core_w_binary _ _ _ Hcore).
    + rewrite !Forall_app. repeat split; apply Forall_forall; intros c Hc.
      * unfold density in Hc.
        apply in_flat_map in Hc. destruct Hc as [i [Hi Hc]].
        apply in_flat_map in Hc. destruct Hc as [p [Hp Hc]].
        apply in_flat_map in Hc. destruct Hc as [q [Hq Hc]].
        apply in_range in Hi, Hp, Hq. revert Hc.
        destruct (Nat.eqb_spec p q); simpl;
          [intros [] | intros [<- | []]; now apply Hdens].
      * unfold linking in Hc.
        apply in_flat_map in Hc. destruct Hc as [j1 [H1 Hc]].
        apply in_flat_map in Hc. destruct Hc as [j2 [H2 Hc]].
        apply in_flat_map in Hc. destruct Hc as [p [Hp Hc]].
        apply in_flat_map in Hc. destruct Hc as [q [Hq Hc]].
        apply in_range in H1, H2, Hp, Hq.
        pose proof (core_link _ _ _ Hcore j1 j2 p q H1 H2 Hp Hq) as Hl.
        rewrite Forall_forall in Hl. now apply Hl.
      * unfold at_least_two in Hc. apply in_map_iff in Hc. destruct Hc as [p [<- Hp]].
        apply in_range in Hp. exact (core_two _ _ _ Hcore p Hp).
      * unfold exactly_one in Hc. apply in_map_iff in Hc. destruct Hc as [i [<- Hi]].
        apply in_range in Hi. exact (core_one _ _ _ Hcore i Hi).
Qed.

Lemma density_sat_iff a A n k i p q :
  partition_core a n k -> is_01 A ->
  (i < n)%nat -> (p < k)%nat -> (q < k)%nat ->
  (sat a (density_constraint A n i p q) <->
   (In i (selected a (fun v => x2 v p) (range n)) ->
    Z.of_nat (neighbours_in A (selected a (fun v => x2 v q) (range n)) i)
      * (Z.of_nat (List.length (selected a (fun v => x2 v p) (range n))) - 1)
    <= Z.of_nat (neighbours_in A (selected a (fun v => x2 v p) (range n)) i)
       * Z.of_nat (List.length (selected a (fun v => x2 v q) (range n))))).
Proof.
  intros Hcore H01 Hi Hp Hq. split.
  - intros Hsat Hin. now apply (density_members a A n k Hcore H01 i p q).
  - intros H G. unfold holds. cbn [rel lhs rhs eval].
    rewrite (N_C_value a A n k Hcore H01 i p q Hp Hq),
            (N_C_value a A n k Hcore H01 i q p Hq Hp),
            (correction_value a A n k Hcore H01 i q Hq).
    unfold Qminus.
    rewrite <- !inject_Z_mult, <- inject_Z_opp, <- inject_Z_plus, <- Zle_Qle.
    assert (Hin : In i (selected a (fun v => x2 v p) (range n))).
    { apply selected_In. split; [now apply in_range | ].
      now apply (gt_half_binary _ (core_x_binary _ _ _ Hcore i p Hi Hp)). }
    specialize (H Hin). lia.
Qed.

Lemma selected_labelled_part f n p :
  selected (labelled f) (fun i => x2 i p) (range n) = part f n p.
Proof.
  unfold selected, part. apply filter_ext. intro i. simpl. now destruct (f i =? p)%nat.
Qed.

Lemma selected_labelled_label f k i :
  (f i < k)%nat -> selected (labelled f) (x2 i) (range k) = [f i].
Proof.
  intro Hf. rewrite <- (filter_is (f i) k Hf). unfold selected.
  apply filter_ext. intro p. simpl. now destruct (f i =? p)%nat.
Qed.

Lemma labelled_binary f v : binary (labelled f v).
Proof.
  unfold binary. destruct v; simpl; try (left; reflexivity).
  - destruct (f i =? p)%nat; [right | left]; reflexivity.
  - destruct ((f j1 =? p)%nat && (f j2 =? q)%nat); [right | left]; reflexivity.
Qed.

Lemma labelled_core f n k :
  (forall i, (i < n)%nat -> (f i < k)%nat) ->
  (forall p, (p < k)%nat -> (2 <= List.length (part f n p))%nat) ->
  partition_core (labelled f) n k.
Proof.
  intros Hlab Htwo. constructor.
  - intros. apply labelled_binary.
  - intros. apply labelled_binary.
  - intros j1 j2 p q _ _ _ _. apply link_product; try apply labelled_binary.
    simpl. destruct (f j1 =? p)%nat, (f j2 =? q)%nat; reflexivity.
  - intros p Hp. rewrite sum_binary_count by (intros; apply labelled_binary).
    rewrite selected_labelled_part. change 2%Q with (inject_Z 2).
    rewrite <- Zle_Qle. specialize (Htwo p Hp). lia.
  - intros i Hi. rewrite sum_binary_count by (intros; apply labelled_binary).
    rewrite selected_labelled_label by auto. reflexivity.
Qed.

(** A k-community structure of the graph satisfies the model. *)
Lemma labelled_feasible A k f :
  is_01 A -> is_k_community A (shape0 A) k f ->
  feasible (KCommunity.build_model A k) (labelled f).
Proof.
  intros H01 [Hlab [Htwo Hdens]]. apply k_feasible_iff.
  pose proof (labelled_core f (shape0 A) k Hlab Htwo) as Hcore.
  split; [exact Hcore | ].
  intros i p q Hi Hp Hq Hpq.
  apply (density_sat_iff _ A _ k i p q Hcore H01 Hi Hp Hq).
  rewrite !selected_labelled_part. now apply Hdens.
Qed.

Lemma label_of_part a n k p :
  partition_core a n k -> (p < k)%nat ->
  part (label_of a k) n p = selected a (fun i => x2 i p) (range n).
Proof.
  intros Hcore Hp. unfold part, selected. apply filter_ext_in. intros i Hi.
  apply in_range in Hi.
  destruct (core_unique_community a n k Hcore i Hi) as [p0 [Hp0 E]].
  unfold label_of. rewrite E. simpl hd.
  destruct (gt_half (a (x2 i p))) eqn:G.
  - assert (Hin : In p (selected a (x2 i) (range k)))
      by (apply selected_In; split; [now apply in_range | exact G]).
    rewrite E in Hin. destruct Hin as [-> | []]. apply Nat.eqb_refl.
  - apply Nat.eqb_neq. intros ->.
    assert (Hin : In p (selected a (x2 i) (range k))) by (rewrite E; now left).
    apply selected_In in Hin. destruct Hin as [_ Hin]. congruence.
Qed.

(** A solution of the model is a k-community structure of the graph. *)
Lemma feasible_is_k_community A k a :
  is_01 A -> feasible (KCommunity.build_model A k) a ->
  is_k_community A (shape0 A) k (label_of a k).
Proof.
  intros H01 Hf. apply k_feasible_iff in Hf. destruct Hf as [Hcore Hdens].
  repeat split.
  - intros i Hi. destruct (core_unique_community a _ k Hcore i Hi) as [p0 [Hp0 E]].
    unfold label_of. now rewrite E.
  - intros p Hp. rewrite (label_of_part a _ k p Hcore Hp).
    now apply (core_two_members a _ k Hcore).
  - intros p q i Hp Hq Hpq Hi.
    rewrite (label_of_part a _ k p Hcore Hp) in *.
    rewrite (label_of_part a _ k q Hcore Hq).
    assert (Hlt : (i < shape0 A)%nat) by (apply selected_In in Hi; now apply in_range).
    apply (density_sat_iff a A _ k i p q Hcore H01 Hlt Hp Hq); auto.
Qed.

Lemma communities_of_labels a n k :
  partition_core a n k ->
  communities a n k = map (fun p => ((p + 1)%nat, part (label_of a k) n p)) (range k).
Proof.
  intro Hcore. unfold communities. apply map_ext_in. intros p Hp.
  apply in_range in Hp. now rewrite (label_of_part a n k p Hcore Hp).
Qed.

(** X10. For a square symmetric 0/1 matrix with n>=4, n>=2k, k>=2 and a
    sound reply of a solver that concluded, [find_k_community] returns
    "No k-community exists." (with the number k) exactly when no labelling
    of the vertices is a k-community structure of the graph; otherwise it
    returns the parts 1..k of a labelling that is one. *)
Theorem k_community_decides_existence :
  forall (A : ndarray) (k : Z) (r : reply),
    is_square A = true -> is_symmetric A = true -> is_01 A ->
    (4 <= shape0 A)%nat -> 2 * k <= Z.of_nat (shape0 A) -> 2 <= k ->
    reply_sound (KCommunity.build_model A (Z.to_nat k)) r -> reply_conclusive r ->
    (answer (find_k_community A k) r
       = Returns (Message ("No " ++ strZ k ++ "-community exists."))
     <-> ~ exists f, is_k_community A (shape0 A) (Z.to_nat k) f) /\
    (answer (find_k_community A k) r
       <> Returns (Message ("No " ++ strZ k ++ "-community exists.")) ->
     exists f,
       is_k_community A (shape0 A) (Z.to_nat k) f /\
       answer (find_k_community A k) r
         = Returns (Communities
             (map (fun p => ((p + 1)%nat, part f (shape0 A) p)) (range (Z.to_nat k))))).
Proof.
  intros A k r Hsq Hsym H01 Hn Hnk Hk Hs Hc.
  rewrite k_after_validation by assumption. unfold answer, exec.
  destruct Hc as [Ho | Hi].
  - destruct (sound_optimal _ _ Hs Ho) as [a [HX [Hf _]]].
    assert (Hd : KCommunity.decode "" (shape0 A) k r
                 = Returns (Communities (communities a (shape0 A) (Z.to_nat k)))).
    { unfold KCommunity.decode. now rewrite Ho, HX. }
    rewrite Hd. pose proof (feasible_is_k_community A _ a H01 Hf) as Hkc.
    split; [split | ].
    + discriminate.
    + intro Hno. destruct Hno. eauto.
    + intros _. exists (label_of a (Z.to_nat k)). split; [exact Hkc | ].
      rewrite (communities_of_labels a _ _ (k_model_core A _ a Hf)). reflexivity.
  - assert (Hd : KCommunity.decode "" (shape0 A) k r
                 = Returns (Message ("No " ++ strZ k ++ "-community exists."))).
    { unfold KCommunity.decode. now rewrite Hi. }
    rewrite Hd. split; [split | ].
    + intros _ [f Hkc].
      exact (sound_infeasible _ _ Hs Hi _ (labelled_feasible A _ f H01 Hkc)).
    + reflexivity.
    + intro Hne. now destruct Hne.
Qed.

Lemma k_community_decides_existence_witness :
  exists f,
    is_k_community two_edges (shape0 two_edges) (Z.to_nat 2) f /\
    answer (find_k_community two_edges 2) (Reply OPTIMAL (Some two_parts))
      = Returns (Communities
          (map (fun p => ((p + 1)%nat, part f (shape0 two_edges) p)) (range (Z.to_nat 2)))).
Proof.
  apply (proj2 (k_community_decides_existence two_edges 2 (Reply OPTIMAL (Some two_parts))
                  eq_refl eq_refl (is_01_by_evaluation two_edges eq_refl)
                  (Nat.le_refl 4) (Z.le_refl 4) (Z.le_refl 2)
                  two_parts_sound (or_introl eq_refl))).
  discriminate.
Defined.

(** ** What the size checks of the k-community functions reject *)

Lemma list_sum_map_add {T} (g h : T -> nat) l :
  list_sum (map (fun x => (g x + h x)%nat) l)
  = (list_sum (map g l) + list_sum (map h l))%nat.
Proof. induction l as [ | x l IH]; simpl; lia. Qed.

Lemma list_sum_indicator (t : nat -> bool) l :
  list_sum (map (fun p => if t p then 1%nat else 0%nat) l) = List.length (filter t l).
Proof. induction l as [ | p l IH]; simpl; [reflexivity | ]. destruct (t p); simpl; lia. Qed.

(** The parts of a labelling with labels below k add up to the whole list. *)
Lemma parts_add_up (f : nat -> nat) k l :
  (forall i, In i l -> (f i < k)%nat) ->
  list_sum (map (fun p => List.length (filter (fun i => (f i =? p)%nat) l)) (range k))
  = List.length l.
Proof.
  induction l as [ | x l IH]; intro Hf.
  - simpl. induction (range k); simpl; auto.
  - rewrite (map_ext _ (fun p => ((if (f x =? p)%nat then 1 else 0)
                                   + List.length (filter (fun i => (f i =? p)%nat) l))%nat)).
    2:{ intro p. simpl. destruct (f x =? p)%nat; reflexivity. }
    rewrite list_sum_map_add, IH by (intros; apply Hf; now right).
    rewrite list_sum_indicator, filter_is by (apply Hf; now left). reflexivity.
Qed.

Lemma list_sum_at_least (g : nat -> nat) l :
  (forall p, In p l -> (2 <= g p)%nat) -> (2 * List.length l <= list_sum (map g l))%nat.
Proof.
  induction l as [ | p l IH]; intro H; simpl; [lia | ].
  specialize (H p (or_introl eq_refl)) as Hp.
  assert (2 * List.length l <= list_sum (map g l))%nat by (apply IH; intros; apply H; now right).
  lia.
Qed.

Lemma k_community_needs_2k_vertices A n k f :
  is_k_community A n k f -> (2 * k <= n)%nat.
Proof.
  intros [Hlab [Htwo _]].
  pose proof (parts_add_up f k (range n)) as Hsum.
  rewrite length_range in Hsum.
  rewrite <- Hsum by (intros i Hi; apply Hlab; now apply in_range).
  rewrite <- (length_range k) at 1. apply list_sum_at_least.
  intros p Hp. apply Htwo. now apply in_range.
Qed.

(** X11. For a square symmetric matrix and k>=2, when [find_k_community]
    returns "The graph has less than 4 vertices." or "The number of
    vertices must be at least 2*k.", no labelling of the vertices is a
    k-community structure of the graph: the size checks reject no graph
    that has one. *)
Theorem k_size_checks_lose_nothing :
  forall (A : ndarray) (k : Z),
    is_square A = true -> is_symmetric A = true -> 2 <= k ->
    find_k_community A k = Done (Returns (Message less_than_4)) \/
    find_k_community A k = Done (Returns (Message less_than_2k)) ->
    ~ exists f, is_k_community A (shape0 A) (Z.to_nat k) f.
Proof.
  intros A k Hsq Hsym Hk Hmsg [f Hf].
  apply k_community_needs_2k_vertices in Hf.
  unfold find_k_community in Hmsg. rewrite Hsq, Hsym in Hmsg.
  simpl negb in Hmsg. cbv iota in Hmsg.
  destruct (Nat.ltb_spec (shape0 A) 4); [lia | ].
  destruct (Z.ltb_spec (Z.of_nat (shape0 A)) (2 * k)); [lia | ].
  destruct (Z.ltb_spec k 2); [lia | ].
  destruct Hmsg as [Hm | Hm]; discriminate Hm.
Qed.

Lemma k_size_checks_lose_nothing_witness :
  ~ exists f, is_k_community two_edges (shape0 two_edges) (Z.to_nat 3) f.
Proof.
  apply (k_size_checks_lose_nothing two_edges 3 eq_refl eq_refl); [lia | ].
  right. reflexivity.
Defined.

(** X12. For k = 1 and a square symmetric matrix, [find_k_community]
    submits no model: it returns "The graph has less than 4 vertices." when
    n<4 and "k must be at least 2." otherwise, although with n>=2 the
    labelling that puts every vertex in one community satisfies the
    conditions of a 1-community structure. *)
Theorem single_community_is_rejected :
  forall A : ndarray,
    is_square A = true -> is_symmetric A = true -> (2 <= shape0 A)%nat ->
    is_k_community A (shape0 A) 1 (fun _ => 0%nat) /\
    submitted (find_k_community A 1) = None /\
    find_k_community A 1
      = Done (Returns (Message (if (shape0 A <? 4)%nat then less_than_4 else k_less_than_2))).
Proof.
  intros A Hsq Hsym Hn. split; [ | split].
  - repeat split.
    + intros; lia.
    + intros p Hp. assert (p = 0%nat) by lia. subst p.
      unfold part. rewrite (filter_ext _ (fun _ => true)) by reflexivity.
      assert (E : forall l : list nat, filter (fun _ => true) l = l)
        by (induction l as [ | x l IH]; simpl; [ | rewrite IH]; reflexivity).
      rewrite E, length_range. exact Hn.
    + intros p q i Hp Hq Hpq. lia.
  - unfold find_k_community. rewrite Hsq, Hsym. simpl negb. cbv iota.
    destruct (shape0 A <? 4)%nat; [reflexivity | ].
    destruct (Z.ltb_spec (Z.of_nat (shape0 A)) (2 * 1)); [lia | reflexivity].
  - unfold find_k_community. rewrite Hsq, Hsym. simpl negb. cbv iota.
    destruct (shape0 A <? 4)%nat; [reflexivity | ].
    destruct (Z.ltb_spec (Z.of_nat (shape0 A)) (2 * 1)); [lia | reflexivity].
Qed.

Lemma single_community_is_rejected_witness :
  is_k_community triangle (shape0 triangle) 1 (fun _ => 0%nat) /\
  submitted (find_k_community triangle 1) = None /\
  find_k_community triangle 1
    = Done (Returns (Message (if (shape0 triangle <? 4)%nat
                              then less_than_4 else k_less_than_2))).
Proof.
  apply (single_community_is_rejected triangle eq_refl eq_refl). simpl. lia.
Defined.

(** ** The max-community functions never reach the solver *)

(** X13. For every square symmetric matrix with n>=3,
    [find_max_community] and [find_connected_max_community] raise a
    [TypeError] at the first call of [addGenConstrIndicator]: the
    comparison they pass is a product of two linear expressions. They
    submit no model, and for no solver reply do they return a dict or a
    message. *)
Theorem max_community_functions_raise :
  forall A : ndarray,
    is_square A = true -> is_symmetric A = true -> (3 <= shape0 A)%nat ->
    is_linear (pds_comparison A (shape0 A) 0) = false /\
    (exists msg,
       find_max_community A = Done (Raises "TypeError" msg) /\
       find_connected_max_community A = Done (Raises "TypeError" msg)) /\
    submitted (find_max_community A) = None /\
    submitted (find_connected_max_community A) = None /\
    forall r res,
      answer (find_max_community A) r <> Returns res /\
      answer (find_connected_max_community A) r <> Returns res.
Proof.
  intros A Hsq Hsym Hn.
  assert (E1 : find_max_community A = Done (Raises "TypeError" not_linear)).
  { rewrite max_after_assertions by assumption.
    destruct (Nat.ltb_spec (shape0 A) 3); [lia | reflexivity]. }
  assert (E2 : find_connected_max_community A = Done (Raises "TypeError" not_linear)).
  { rewrite connected_max_after_assertions by assumption.
    destruct (Nat.ltb_spec (shape0 A) 3); [lia | reflexivity]. }
  split; [apply pds_comparison_not_linear; lia | ].
  split; [exists not_linear; auto | ].
  rewrite E1, E2. repeat split; discriminate.
Qed.

Lemma max_community_functions_raise_witness :
  is_linear (pds_comparison triangle (shape0 triangle) 0) = false /\
  (exists msg,
     find_max_community triangle = Done (Raises "TypeError" msg) /\
     find_connected_max_community triangle = Done (Raises "TypeError" msg)) /\
  submitted (find_max_community triangle) = None /\
  submitted (find_connected_max_community triangle) = None /\
  forall r res,
    answer (find_max_community triangle) r <> Returns res /\
    answer (find_connected_max_community triangle) r <> Returns res.
Proof.
  apply (max_community_functions_raise triangle); [reflexivity | reflexivity | ].
  simpl. lia.
Defined.

(** ** The k-community models are linear *)

Lemma leb_degree_quicksum (f : nat -> expr) l :
  (forall x, In x l -> (degree (f x) <= 1)%nat) ->
  (degree (quicksum (map f l)) <=? 1)%nat = true.
Proof. intro H. apply Nat.leb_le. now apply degree_quicksum_le. Qed.

Lemma density_constraint_linear A n i p q :
  linear_constr (density_constraint A n i p q) = true.
Proof.
  unfold density_constraint, linear_constr, is_linear. cbn [lhs rhs].
  apply andb_true_iff. split; apply Nat.leb_le.
  - apply degree_quicksum_le. intros j1 _. cbn [degree].
    pose proof (degree_quicksum_le (fun j2 => Var (w4 j1 j2 p q)) (range n)
                  (fun _ _ => Nat.le_refl 1)). lia.
  - cbn [degree]. apply Nat.max_lub.
    + apply degree_quicksum_le. intros l1 _. cbn [degree].
      pose proof (degree_quicksum_le (fun l2 => Var (w4 l1 l2 q p)) (range n)
                    (fun _ _ => Nat.le_refl 1)). lia.
    + apply degree_quicksum_le. intros l _. cbn [degree]. lia.
Qed.

Lemma k_constraints_linear A n k c :
  In c (density A n k ++ linking n k ++ at_least_two n k ++ exactly_one n k) ->
  linear_constr c = true.
Proof.
  intro Hc. repeat (apply in_app_or in Hc; destruct Hc as [Hc | Hc]).
  - unfold density in Hc.
    apply in_flat_map in Hc. destruct Hc as [i [_ Hc]].
    apply in_flat_map in Hc. destruct Hc as [p [_ Hc]].
    apply in_flat_map in Hc. destruct Hc as [q [_ Hc]].
    revert Hc. destruct (negb (p =? q)%nat); intro Hc; [ | simpl in Hc; contradiction].
    destruct Hc as [<- | []]. apply density_constraint_linear.
  - unfold linking in Hc.
    apply in_flat_map in Hc. destruct Hc as [j1 [_ Hc]].
    apply in_flat_map in Hc. destruct Hc as [j2 [_ Hc]].
    apply in_flat_map in Hc. destruct Hc as [p [_ Hc]].
    apply in_flat_map in Hc. destruct Hc as [q [_ Hc]].
    destruct Hc as [<- | [<- | [<- | []]]]; reflexivity.
  - unfold at_least_two in Hc. apply in_map_iff in Hc. destruct Hc as [p [<- _]].
    unfold linear_constr, is_linear. cbn [lhs rhs degree].
    rewrite leb_degree_quicksum; [reflexivity | intros; simpl; lia].
  - unfold exactly_one in Hc. apply in_map_iff in Hc. destruct Hc as [i [<- _]].
    unfold linear_constr, is_linear. cbn [lhs rhs degree].
    rewrite leb_degree_quicksum; [reflexivity | intros; simpl; lia].
Qed.

Lemma connectivity_linear A n k c :
  In c (connectivity A n k) -> linear_constr c = true.
Proof.
  intro Hc. unfold connectivity in Hc. apply in_flat_map in Hc. destruct Hc as [p [_ Hc]].
  unfold connectivity_of in Hc.
  apply in_app_or in Hc. destruct Hc as [[<- | []] | Hc]; [reflexivity | ].
  apply in_app_or in Hc. destruct Hc as [Hc | Hc].
  - apply in_flat_map in Hc. destruct Hc as [i [_ Hc]].
    revert Hc. destruct (negb (i =? ConnectedKCommunity.root)%nat); intro Hc;
      [ | simpl in Hc; contradiction].
    destruct Hc as [<- | []]. unfold linear_constr, is_linear. cbn [lhs rhs].
    rewrite !leb_degree_quicksum; [reflexivity | intros; simpl; lia ..].
  - apply in_flat_map in Hc. destruct Hc as [i [_ Hc]].
    apply in_flat_map in Hc. destruct Hc as [j [_ Hc]].
    revert Hc. destruct (get A i j =? 1); intro Hc; [ | simpl in Hc; contradiction].
    destruct Hc as [<- | [<- | []]]; reflexivity.
Qed.

(** X14. Every constraint of the models of [find_k_community] and
    [find_connected_k_community] compares expressions of degree at most 1;
    in particular [addGenConstrIndicator] accepts each density constraint:
    building these models raises nothing. *)
Theorem k_models_are_linear :
  forall (A : ndarray) (k : nat),
    forallb linear_constr (constrs (KCommunity.build_model A k)) = true /\
    forallb linear_constr (constrs (ConnectedKCommunity.build_model A k)) = true /\
    forall i p q : nat,
      exists name c,
        density_constraint A (shape0 A) i p q = GenConstrIndicator name (x2 i p) 1 c /\
        forall m : model,
          addGenConstrIndicator m name (x2 i p) 1 c
          = inr {| model_name := model_name m;
                   params := params m;
                   vars := vars m;
                   objective := objective m;
                   constrs := constrs m ++ [density_constraint A (shape0 A) i p q] |}.
Proof.
  intros A k. split; [ | split].
  - apply forallb_forall. intros c Hc. now apply (k_constraints_linear A (shape0 A) k).
  - apply forallb_forall. intros c Hc.
    cbn [constrs ConnectedKCommunity.build_model] in Hc.
    rewrite !app_assoc in Hc. apply in_app_or in Hc. destruct Hc as [Hc | Hc].
    + apply (k_constraints_linear A (shape0 A) k). now rewrite <- !app_assoc in Hc.
    + now apply (connectivity_linear A (shape0 A) k).
  - intros i p q.
    pose proof (density_constraint_linear A (shape0 A) i p q) as H.
    unfold density_constraint in *. cbn [linear_constr] in H.
    do 2 eexists. split; [reflexivity | ].
    intro m. unfold addGenConstrIndicator. now rewrite H.
Qed.

(** ** Zero flow *)

(** X15. The connectivity constraints of both connected functions hold
    with zero flow for every selection that contains vertex 0: the root,
    flow-conservation and flow-capacity constraints of
    [find_connected_max_community], and those of each community of
    [find_connected_k_community], exclude no vertex set that contains the
    root, connected or not. *)
Theorem connectivity_holds_with_zero_flow :
  forall (A : ndarray) (n : nat) (a : assignment),
    ((forall i, (i < n)%nat -> binary (a (x1 i))) -> (a (x1 0) == 1)%Q ->
     Forall (sat (zero_flow a)) (connectivity_constraints A n) /\
     selected (zero_flow a) x1 (range n) = selected a x1 (range n)) /\
    (forall p, (forall i, (i < n)%nat -> binary (a (x2 i p))) -> (a (x2 0 p) == 1)%Q ->
     Forall (sat (zero_flow a)) (connectivity_of A n p) /\
     selected (zero_flow a) (fun i => x2 i p) (range n)
       = selected a (fun i => x2 i p) (range n)).
Proof.
  intros A n a. split.
  - intros Hb Hroot. split; [now apply zero_flow_connectivity | reflexivity].
  - intros p Hb Hroot. split; [now apply zero_flow_connectivity_of | reflexivity].
Qed.

Lemma connectivity_holds_with_zero_flow_witness :
  Forall (sat (zero_flow (first_vertices 3))) (connectivity_constraints isolated_root 4) /\
  selected (zero_flow (first_vertices 3)) x1 (range 4)
    = selected (first_vertices 3) x1 (range 4).
Proof.
  apply (proj1 (connectivity_holds_with_zero_flow isolated_root 4 (first_vertices 3))).
  - intros i _. unfold binary. simpl. destruct (i <? 3)%nat; [right | left]; reflexivity.
  - reflexivity.
Defined.
